(** * lp_bot: position monitor, CL ratio math, fee policy, swap executor
      and check-cycle orchestration

    Shallow embedding of the JavaScript sources

      - monitor  (PositionMonitor: checkPositionStatus, calculateNewRange,
                  checkAllPositions),
      - web3     (Web3Manager: getGasPrice, sendTransaction, and the
                  nonce-managing signer it wraps the wallet in),
      - rebalancer (Rebalancer: calculateOptimalRatio, swapTokens in its
                  aggregator and its direct-router variant, the
                  pendingRebalance descriptor),
      - index    (AerodromeAutoBalancer: runCheckCycle, checkAndRebalance).

    Numbers.  Ticks, spacings, balances and fees are integers ([Z]).  The
    JavaScript [Number] arithmetic of the monitor only ever divides and
    multiplies integers by the configured multiplier, so it is embedded with
    exact rationals ([Q], [Qfloor], [Qceiling]) and stays executable.  The
    square-root price math of the rebalancer is embedded over the reals
    extended with the IEEE special values that a division by zero produces.
    In both cases rounding of binary64 is not modelled. *)

From Stdlib Require Import ZArith QArith Qround Bool List String Ascii Lia.
From Stdlib Require Import Reals Psatz.
From Stdlib Require Import Uint63 PrimFloat.
Import ListNotations.

Local Open Scope string_scope.
Local Open Scope Z_scope.

(** ** JavaScript values shared by all modules *)

(** An [Error] object: the optional [code] that ethers attaches and the
    [message] the source matches its regular expressions against. *)
Record JsError : Type := mkError {
  code    : option string;
  message : string
}.

Definition address := string.

(** The result of awaiting a promise: fulfilled, or rejected with an error. *)
Inductive Outcome (A : Type) : Type :=
| Ok (a : A)
| Throw (e : JsError).
Arguments Ok {A} a.
Arguments Throw {A} e.

(** *** String helpers ([toLowerCase], [includes], case-insensitive test) *)

Definition lowerAscii (c : ascii) : ascii :=
  let n := nat_of_ascii c in
  if andb (Nat.leb 65 n) (Nat.leb n 90) then ascii_of_nat (n + 32) else c.

Fixpoint toLowerCase (s : string) : string :=
  match s with
  | EmptyString => EmptyString
  | String c rest => String (lowerAscii c) (toLowerCase rest)
  end.

Fixpoint includes (needle hay : string) : bool :=
  if String.prefix needle hay then true
  else match hay with
       | EmptyString => false
       | String _ rest => includes needle rest
       end.

(** [/a|b|c/i.test(msg)] for literal alternatives. *)
Definition testAnyCI (alternatives : list string) (msg : string) : bool :=
  existsb (fun alt => includes (toLowerCase alt) (toLowerCase msg)) alternatives.

(** ** monitor: PositionMonitor *)

Module Monitor.

(** A position as produced by [Web3Manager.getUserPositions]. *)
Record Position : Type := mkPosition {
  tokenId      : string;
  token0       : address;
  token1       : address;
  tickLower    : Z;
  tickUpper    : Z;
  liquidity    : Z;
  isStaked     : bool;
  gaugeAddress : option address;
  poolAddress  : option address
}.

(** [Number.prototype.toFixed(2)] on an exact value: the hundredths [n]
    closest to [x], the larger one on a tie, sign handled apart.  The
    result is kept as a number of hundredths. *)
Definition toFixed2 (x : Q) : Q :=
  if Qle_bool 0 x
  then Qmake (Qfloor (x * 100 + (1 # 2))%Q) 100
  else Qopp (Qmake (Qfloor ((- x) * 100 + (1 # 2))%Q) 100).

(** The local variable [percentOutOfRange] of [checkPositionStatus], before
    it is formatted.  A position with [tickUpper = tickLower] makes the
    source divide by zero ([Infinity]); [Q] returns 0 there, so results
    about this value are stated for [tickLower < tickUpper]. *)
Definition percentOutOfRangeRaw (position : Position) (currentTick : Z) : Q :=
  let tickLower := tickLower position in
  let tickUpper := tickUpper position in
  let isBelowRange := currentTick <? tickLower in
  let isAboveRange := currentTick >? tickUpper in
  if isBelowRange then
    let range := tickUpper - tickLower in
    let distance := tickLower - currentTick in
    (inject_Z distance / inject_Z range * 100)%Q
  else if isAboveRange then
    let range := tickUpper - tickLower in
    let distance := currentTick - tickUpper in
    (inject_Z distance / inject_Z range * 100)%Q
  else 0%Q.

Record Status : Type := mkStatus {
  isInRange         : bool;
  isBelowRange      : bool;
  isAboveRange      : bool;
  percentOutOfRange : Q;
  st_tickLower      : Z;
  st_tickUpper      : Z;
  currentTick       : Z;
  st_liquidity      : Z
}.

Definition checkPositionStatus (position : Position) (currentTick : Z) : Status :=
  let tickLower := tickLower position in
  let tickUpper := tickUpper position in
  let isBelowRange := currentTick <? tickLower in
  let isAboveRange := currentTick >? tickUpper in
  let isInRange := negb isBelowRange && negb isAboveRange in
  {| isInRange := isInRange;
     isBelowRange := isBelowRange;
     isAboveRange := isAboveRange;
     percentOutOfRange := toFixed2 (percentOutOfRangeRaw position currentTick);
     st_tickLower := tickLower;
     st_tickUpper := tickUpper;
     currentTick := currentTick;
     st_liquidity := liquidity position |}.

(** The object [{ tickLower, tickUpper }] returned by [calculateNewRange]. *)
Record NewRange : Type := mkRange {
  newTickLower : Z;
  newTickUpper : Z
}.

(** [rangeWidth] of [calculateNewRange]. *)
Definition rangeWidth (tickSpacing : Z) (rangeMultiplier : Q) : Q :=
  (inject_Z tickSpacing * inject_Z (Qfloor (30 / inject_Z tickSpacing)) * rangeMultiplier)%Q.

(** [calculateNewRange(currentTick, tickSpacing, rangeMultiplier)]; the two
    trailing parameters of the source (the existing ticks) are never read.
    [tickSpacing = 0] gives [NaN] in the source and is outside this model. *)
Definition calculateNewRange (currentTick tickSpacing : Z) (rangeMultiplier : Q) : NewRange :=
  let rangeWidth := rangeWidth tickSpacing rangeMultiplier in
  let tickLower :=
    Qfloor ((inject_Z currentTick - rangeWidth) / inject_Z tickSpacing) * tickSpacing in
  let tickUpper :=
    Qceiling ((inject_Z currentTick + rangeWidth) / inject_Z tickSpacing) * tickSpacing in
  {| newTickLower := tickLower; newTickUpper := tickUpper |}.

(** What the monitor reads from the chain while it walks the positions.
    Each field answers one awaited call of [checkAllPositions].  The
    fallback read builds its contract with an identifier, [Contract], that
    the monitor module never binds, so in this version of the source
    [poolTick] always throws; the embedding keeps it as an answer of the
    chain. *)
Record PoolInfo : Type := mkPoolInfo {
  fee         : Z;
  tickSpacing : Z
}.

Record Chain : Type := mkChain {
  findPool        : address -> address -> option address;
  getPool         : address -> Outcome PoolInfo;
  getCurrentPrice : address -> Outcome Z;   (* slot0.tick *)
  poolTick        : address -> Outcome Z;   (* the fallback [pool.tick()] *)
  getToken        : address -> Outcome string  (* symbol *)
}.

Record Result : Type := mkResult {
  r_tokenId      : string;
  r_poolAddress  : address;
  r_token0       : address;
  r_token1       : address;
  token0Symbol   : string;
  token1Symbol   : string;
  r_fee          : Z;
  r_tickSpacing  : Z;
  r_isStaked     : bool;
  r_gaugeAddress : option address;
  status         : Status
}.

(** The tick the monitor classifies against: [let currentTick = 0], then the
    slot0 read, then the fallback, each inside its own [try]. *)
Definition readCurrentTick (chain : Chain) (poolAddress : address) : Z :=
  match getCurrentPrice chain poolAddress with
  | Ok tick => tick
  | Throw _ =>
      match poolTick chain poolAddress with
      | Ok tick => tick
      | Throw _ => 0
      end
  end.

(** The body of the [for] loop of [checkAllPositions] for one position:
    [None] when the position is skipped ([continue], or the outer [catch]),
    [Some result] when a result is pushed. *)
Definition checkPosition (chain : Chain) (position : Position) : option Result :=
  let poolAddress :=
    match poolAddress position with
    | Some a => Some a
    | None => findPool chain (token0 position) (token1 position)
    end in
  match poolAddress with
  | None => None
  | Some poolAddress =>
      match getPool chain poolAddress with
      | Throw _ => None
      | Ok poolInfo =>
          let currentTick := readCurrentTick chain poolAddress in
          let status := checkPositionStatus position currentTick in
          match getToken chain (token0 position) with
          | Throw _ => None
          | Ok symbol0 =>
              match getToken chain (token1 position) with
              | Throw _ => None
              | Ok symbol1 =>
                  Some {| r_tokenId := tokenId position;
                          r_poolAddress := poolAddress;
                          r_token0 := token0 position;
                          r_token1 := token1 position;
                          token0Symbol := symbol0;
                          token1Symbol := symbol1;
                          r_fee := fee poolInfo;
                          r_tickSpacing := tickSpacing poolInfo;
                          r_isStaked := isStaked position;
                          r_gaugeAddress := gaugeAddress position;
                          status := status |}
              end
          end
      end
  end.

Fixpoint checkAllPositions (chain : Chain) (positions : list Position) : list Result :=
  match positions with
  | [] => []
  | position :: rest =>
      match checkPosition chain position with
      | Some result => result :: checkAllPositions chain rest
      | None => checkAllPositions chain rest
      end
  end.



End Monitor.

(** ** The range computation in binary64

    The same [calculateNewRange], on the machine numbers JavaScript uses.
    [floor] and [ceil] are [Math.floor] and [Math.ceil] for arguments below
    [2^51] in magnitude: adding and subtracting [2^52] rounds to an integer,
    which is then corrected by one.  It serves to check, on the inputs the
    examples below use, that rounding does not separate the source from the
    exact embedding. *)

Module F64.
Local Open Scope float_scope.

Definition two52 : float := 0x1p+52.

Definition rint (x : float) : float :=
  if PrimFloat.ltb x 0 then (x - two52) + two52 else (x + two52) - two52.

Definition floor (x : float) : float :=
  let r := rint x in if PrimFloat.ltb x r then r - 1 else r.

Definition ceil (x : float) : float :=
  let r := rint x in if PrimFloat.ltb r x then r + 1 else r.

Definition calculateNewRange (currentTick tickSpacing rangeMultiplier : float)
  : float * float :=
  let rangeWidth := tickSpacing * floor (30 / tickSpacing) * rangeMultiplier in
  let tickLower := floor ((currentTick - rangeWidth) / tickSpacing) * tickSpacing in
  let tickUpper := ceil ((currentTick + rangeWidth) / tickSpacing) * tickSpacing in
  (tickLower, tickUpper).

(** An integer as a [Number]. *)
Definition ofZ (z : Z) : float :=
  if (z <? 0)%Z then - PrimFloat.of_uint63 (Uint63.of_Z (- z))
  else PrimFloat.of_uint63 (Uint63.of_Z z).

(** The double closest to 2.6, the default RANGE_MULTIPLIER. *)
Definition multiplier_2_6 : float := 0x1.4cccccccccccdp+1.

Definition agrees (currentTick tickSpacing : Z) (m : float) (r : Monitor.NewRange) : bool :=
  let '(lo, hi) := calculateNewRange (ofZ currentTick) (ofZ tickSpacing) m in
  PrimFloat.eqb lo (ofZ (Monitor.newTickLower r))
  && PrimFloat.eqb hi (ofZ (Monitor.newTickUpper r)).

End F64.

(** ** Effects: awaited calls, thrown errors, mutable fields

    Every awaited call on the provider, a contract, the signer or the
    aggregator is an entry of the [trace]; its result comes from an
    environment that is indexed by how often that call was made before, so
    that an environment can script "the first submit fails, the second one
    succeeds".  A thrown error keeps the state reached so far, as in
    JavaScript. *)

Inductive Call : Type :=
| GetBlock | GetFeeData | EstimateGas | AccountNonce | WalletSend | TxWait
| NonceReset
| TokenInfo | Allowance | TokenApprove | ApproveWait
| KyberRoute | KyberBuild
| PoolTickSpacing | QuoteExactInputSingle | RouterPermit2
| Permit2Allowance | Permit2Approve | Permit2Wait | PopulateExecute
| Delay.

Definition tag (c : Call) : nat :=
  match c with
  | GetBlock => 0 | GetFeeData => 1 | EstimateGas => 2 | AccountNonce => 3
  | WalletSend => 4 | TxWait => 5 | NonceReset => 6 | TokenInfo => 7
  | Allowance => 8 | TokenApprove => 9 | ApproveWait => 10 | KyberRoute => 11
  | KyberBuild => 12 | PoolTickSpacing => 13 | QuoteExactInputSingle => 14
  | RouterPermit2 => 15 | Permit2Allowance => 16 | Permit2Approve => 17
  | Permit2Wait => 18 | PopulateExecute => 19 | Delay => 20
  end%nat.

Definition sameCall (a b : Call) : bool := Nat.eqb (tag a) (tag b).
Arguments sameCall : simpl never.

(** How often [c] occurs in a trace. *)
Fixpoint calls (c : Call) (t : list Call) : nat :=
  match t with
  | [] => O
  | x :: rest => if sameCall x c then S (calls c rest) else calls c rest
  end.

(** The stages [rebalance] writes into [pendingRebalance.stage]. *)
Inductive Stage : Type :=
| starting | unstaking | withdrawing | checking_balances
| calculating_ratio | swapping | creating_position | staking.

(** The object stored in [Rebalancer.pendingRebalance]. *)
Record Descriptor : Type := mkDescriptor {
  d_tokenId   : string;
  d_tickLower : Z;
  d_tickUpper : Z;
  stage       : Stage
}.

(** The mutable state the embedded methods touch: the trace of awaited
    calls, the two private fields of the nonce manager, the nonces it has
    handed out (newest first) and the rebalancer's descriptor. *)
Record World : Type := mkWorld {
  trace            : list Call;
  noncePromise     : option Z;
  nonceDelta       : Z;
  assignedNonces   : list Z;
  pendingRebalance : option Descriptor
}.

Definition M (A : Type) : Type := World -> Outcome A * World.

Definition ret {A} (a : A) : M A := fun w => (Ok a, w).

Definition throw {A} (e : JsError) : M A := fun w => (Throw e, w).

Definition bind {A B} (c : M A) (k : A -> M B) : M B :=
  fun w =>
    match c w with
    | (Ok a, w') => k a w'
    | (Throw e, w') => (Throw e, w')
    end.

(** [try { c } catch (e) { handler e }] *)
Definition tryCatch {A} (c : M A) (handler : JsError -> M A) : M A :=
  fun w =>
    match c w with
    | (Ok a, w') => (Ok a, w')
    | (Throw e, w') => handler e w'
    end.

Declare Scope js_scope.
Delimit Scope js_scope with js.
Notation "x <- c ;; k" := (bind c (fun x => k))
  (at level 61, c at next level, right associativity) : js_scope.
Notation "c ;;; k" := (bind c (fun _ => k))
  (at level 61, right associativity) : js_scope.

Definition record (c : Call) : M nat :=
  fun w =>
    (Ok (calls c (trace w)),
     {| trace := c :: trace w;
        noncePromise := noncePromise w;
        nonceDelta := nonceDelta w;
        assignedNonces := assignedNonces w;
        pendingRebalance := pendingRebalance w |}).

(** An awaited external call: logged in the trace, answered by [oracle]. *)
Definition await {A} (c : Call) (oracle : nat -> Outcome A) : M A :=
  fun w =>
    match record c w with
    | (Ok n, w') => (oracle n, w')
    | (Throw e, w') => (Throw e, w')
    end.

Definition newError (msg : string) : JsError := {| code := None; message := msg |}.

(** What a computation may do to the world, whatever its result:
    [atMost c n m] makes at most [n] calls [c]; [grows m] only ever extends
    the counts; [keepsDescriptor m] leaves [pendingRebalance] alone. *)
Definition atMost {A} (c : Call) (n : nat) (m : M A) : Prop :=
  forall w, (calls c (trace (snd (m w))) <= calls c (trace w) + n)%nat.

Definition grows {A} (m : M A) : Prop :=
  forall c w, (calls c (trace w) <= calls c (trace (snd (m w))))%nat.

Definition keepsDescriptor {A} (m : M A) : Prop :=
  forall w, pendingRebalance (snd (m w)) = pendingRebalance w.

(** ** Configuration (config.js), the fields the embedded code reads *)

Record Config : Type := mkConfig {
  gasStrategy    : string;
  maxGasPrice    : Z;            (* MAX_GAS_PRICE, in gwei *)
  priorityFeeWei : Z;            (* parseUnits(String(priorityFeeGwei), 'gwei') *)
  slippageBps    : Z;
  allowedRouters : list address; (* kyber.allowedRouters *)
  autoRebalance      : bool;
  rangeMultiplier    : Q;
  rebalanceThreshold : Q
}.

Record Receipt : Type := mkReceipt {
  hash        : string;
  blockNumber : Z
}.

(** ** web3: Web3Manager *)

Module Web3.

(** [ethers.parseUnits(String(n), 'gwei')] for an integer [n]. *)
Definition parseGwei (n : Z) : Z := n * 10 ^ 9.

Record GasPrice : Type := mkGasPrice {
  maxFeePerGas         : Z;
  maxPriorityFeePerGas : Z
}.

(** The EIP-1559 branch of [getGasPrice], after the block has been read. *)
Definition eip1559 (cfg : Config) (baseFee : Z) : GasPrice :=
  let priorityFee := priorityFeeWei cfg in
  let maxPriorityFeePerGas := priorityFee in
  let maxFeePerGas := baseFee + maxPriorityFeePerGas in
  let maxGwei := parseGwei (maxGasPrice cfg) in
  let maxFeePerGas := if maxFeePerGas >? maxGwei then maxGwei else maxFeePerGas in
  let maxPriorityFeePerGas :=
    if maxPriorityFeePerGas >? maxFeePerGas then maxFeePerGas else maxPriorityFeePerGas in
  {| maxFeePerGas := maxFeePerGas; maxPriorityFeePerGas := maxPriorityFeePerGas |}.

(** The fields [sendTransaction] adds to a request before it is signed. *)
Record Tx : Type := mkTx {
  tx_nonce                : Z;
  tx_maxFeePerGas         : Z;
  tx_maxPriorityFeePerGas : Z;
  tx_gasLimit             : Z
}.

(** What the provider, the token contract and the wrapped wallet answer.
    A timeout of [withTimeout] is a thrown answer.  The token cache of
    [getToken] is not modelled: a cached lookup is an answer that does not
    throw. *)
Record Env : Type := mkEnv {
  blockBaseFee : nat -> Outcome Z;            (* getBlock('latest').baseFeePerGas *)
  feeData      : nat -> Outcome GasPrice;     (* provider.getFeeData() *)
  estimateGas  : nat -> Outcome Z;
  accountNonce : nat -> Z;                    (* the chain's next nonce of the account *)
  walletSend   : nat -> Tx -> Outcome string; (* signer.sendTransaction(tx) *)
  txWait       : nat -> Outcome (option Receipt);
  tokenInfo    : nat -> Outcome string;
  allowance    : nat -> Outcome Z;
  tokenApprove : nat -> Z -> Outcome string;  (* token.approve, at a nonce *)
  approveWait  : nat -> Outcome (option Receipt)
}.

Section WithEnv.
Variable cfg : Config.
Variable env : Env.

Local Open Scope js_scope.

Definition getGasPrice : M GasPrice :=
  baseFee <- await GetBlock (blockBaseFee env) ;;
  if String.eqb (gasStrategy cfg) "legacy"
  then await GetFeeData (feeData env)
  else ret (eip1559 cfg baseFee).

(** *** The nonce manager the wallet is wrapped in ([initialize])

    This is the [NonceManager] of the ethers library, embedded by what its
    methods do: [getNonce('pending')] loads the account nonce from the chain
    once and then adds the number of transactions sent since; [reset()]
    forgets both; [sendTransaction] takes the next nonce and submits. *)

Definition nonceManager_getNonce : M Z :=
  fun w =>
    match noncePromise w with
    | Some base => (Ok (base + nonceDelta w), w)
    | None =>
        let base := accountNonce env (calls AccountNonce (trace w)) in
        (Ok (base + nonceDelta w),
         {| trace := AccountNonce :: trace w;
            noncePromise := Some base;
            nonceDelta := nonceDelta w;
            assignedNonces := assignedNonces w;
            pendingRebalance := pendingRebalance w |})
    end.

Definition nonceManager_increment : M unit :=
  fun w =>
    (Ok tt,
     {| trace := trace w;
        noncePromise := noncePromise w;
        nonceDelta := nonceDelta w + 1;
        assignedNonces := assignedNonces w;
        pendingRebalance := pendingRebalance w |}).

Definition nonceManager_reset : M unit :=
  fun w =>
    (Ok tt,
     {| trace := NonceReset :: trace w;
        noncePromise := None;
        nonceDelta := 0;
        assignedNonces := assignedNonces w;
        pendingRebalance := pendingRebalance w |}).

Definition assign (nonce : Z) : M unit :=
  fun w =>
    (Ok tt,
     {| trace := trace w;
        noncePromise := noncePromise w;
        nonceDelta := nonceDelta w;
        assignedNonces := nonce :: assignedNonces w;
        pendingRebalance := pendingRebalance w |}).

(** [NonceManager.sendTransaction]; every state-changing call on a contract
    connected to the wallet goes through it. *)
Definition nonceManager_sendTransaction
    (c : Call) (submit : nat -> Z -> Outcome string) : M string :=
  nonce <- nonceManager_getNonce ;;
  nonceManager_increment ;;;
  assign nonce ;;;
  await c (fun n => submit n nonce).

(** [Web3Manager.sendTransaction]: fee data, gas estimate with the 20%
    buffer, submit through the nonce manager, wait for one confirmation.
    The [catch] of the source logs and rethrows. *)
Definition sendTransaction : M Receipt :=
  gasPrice <- getGasPrice ;;
  estimatedGas <- await EstimateGas (estimateGas env) ;;
  let safetyMultiplier := 120 in
  let gasLimit := Z.quot (estimatedGas * safetyMultiplier) 100 in
  sentTx <- nonceManager_sendTransaction WalletSend
              (fun n nonce =>
                 walletSend env n
                   {| tx_nonce := nonce;
                      tx_maxFeePerGas := maxFeePerGas gasPrice;
                      tx_maxPriorityFeePerGas := maxPriorityFeePerGas gasPrice;
                      tx_gasLimit := gasLimit |}) ;;
  receipt <- await TxWait (txWait env) ;;
  match receipt with
  | None => throw (newError ("Transaction " ++ sentTx ++ " not confirmed"))
  | Some receipt => ret receipt
  end.

(** [approveToken(tokenAddress, spender, amount)] *)
Definition approveToken (amount : Z) : M unit :=
  symbol <- await TokenInfo (tokenInfo env) ;;
  currentAllowance <- await Allowance (allowance env) ;;
  if currentAllowance <? amount then
    tx <- nonceManager_sendTransaction TokenApprove (tokenApprove env) ;;
    receipt <- await ApproveWait (approveWait env) ;;
    match receipt with
    | None => throw (newError "Approval tx not confirmed")
    | Some _ => ret tt
    end
  else ret tt.

End WithEnv.

End Web3.

(** ** JavaScript numbers for the price math

    A [Number] is a real, or one of the three special values.  Arithmetic on
    finite values is exact; the special values follow IEEE 754.  A zero
    divisor can only come from subtracting two equal values here, which is
    [+0], so a finite nonzero dividend gives the infinity of its own sign. *)

Module Num.

Inductive num : Type :=
| Fin (x : R)
| PosInf
| NegInf
| NaN.

Definition add (a b : num) : num :=
  match a, b with
  | NaN, _ | _, NaN => NaN
  | Fin x, Fin y => Fin (x + y)
  | PosInf, NegInf | NegInf, PosInf => NaN
  | PosInf, _ | _, PosInf => PosInf
  | NegInf, _ | _, NegInf => NegInf
  end.

Definition neg (a : num) : num :=
  match a with
  | Fin x => Fin (- x)
  | PosInf => NegInf
  | NegInf => PosInf
  | NaN => NaN
  end.

Definition sub (a b : num) : num := add a (neg b).

(** The infinity that has the sign of [x], or [NaN] for zero. *)
Definition signedInf (x : R) : num :=
  if Rlt_dec 0 x then PosInf else if Rlt_dec x 0 then NegInf else NaN.

Definition mul (a b : num) : num :=
  match a, b with
  | NaN, _ | _, NaN => NaN
  | Fin x, Fin y => Fin (x * y)
  | PosInf, Fin y | Fin y, PosInf => signedInf y
  | NegInf, Fin y | Fin y, NegInf => signedInf (- y)
  | PosInf, PosInf | NegInf, NegInf => PosInf
  | PosInf, NegInf | NegInf, PosInf => NegInf
  end.

Definition div (a b : num) : num :=
  match a, b with
  | NaN, _ | _, NaN => NaN
  | Fin x, Fin y => if Req_dec_T y 0 then signedInf x else Fin (x / y)
  | Fin _, PosInf | Fin _, NegInf => Fin 0
  | PosInf, Fin y => if Rlt_dec y 0 then NegInf else PosInf
  | NegInf, Fin y => if Rlt_dec y 0 then PosInf else NegInf
  | _, _ => NaN
  end.

(** [Math.pow(b, e)] and [b ** e] for a positive base, [Math.sqrt]. *)
Definition pow (b e : R) : num := Fin (Rpower b e).

Definition sqrt (a : num) : num :=
  match a with
  | Fin x => if Rlt_dec x 0 then NaN else Fin (R_sqrt.sqrt x)
  | PosInf => PosInf
  | _ => NaN
  end.

End Num.

(** ** rebalancer: the ratio for a tick range *)

Module Ratio.
Import Num.

(** What [calculateOptimalRatio] reads from the pool and its two tokens. *)
Record PoolState : Type := mkPoolState {
  slot0_tick : Z;
  decimals0  : Z;
  decimals1  : Z
}.

Record RatioResult : Type := mkRatio {
  token0Ratio       : num;
  token1Ratio       : num;
  amount0PerAmount1 : option num;
  inRange           : bool;
  belowRange        : bool
}.

Definition getPriceFromTickAdjusted (currentTick decimals0 decimals1 : Z) : num :=
  let priceRaw := pow 1.0001 (IZR currentTick) in
  let decimalAdjustment := pow 10 (IZR (decimals0 - decimals1)) in
  mul priceRaw decimalAdjustment.


Definition calculateOptimalRatio (pool : PoolState) (tickLower tickUpper : Z) : RatioResult :=
  let currentTick := slot0_tick pool in
  let decimals0 := decimals0 pool in
  let decimals1 := decimals1 pool in
  let sqrtPriceCurrent := pow 1.0001 (IZR currentTick / 2) in
  let sqrtPriceLower := sqrt (pow 1.0001 (IZR tickLower)) in
  let sqrtPriceUpper := sqrt (pow 1.0001 (IZR tickUpper)) in
  if (currentTick <? tickLower)%Z then
    {| token0Ratio := Fin 1; token1Ratio := Fin 0; amount0PerAmount1 := None;
       inRange := false; belowRange := true |}
  else if (currentTick >? tickUpper)%Z then
    {| token0Ratio := Fin 0; token1Ratio := Fin 1; amount0PerAmount1 := None;
       inRange := false; belowRange := false |}
  else
    let amount0PerAmount1Raw :=
      div (sub (div (Fin 1) sqrtPriceCurrent) (div (Fin 1) sqrtPriceUpper))
          (sub sqrtPriceCurrent sqrtPriceLower) in
    let decimalAdjustment := pow 10 (IZR (decimals1 - decimals0)) in
    let amount0PerAmount1Human := mul amount0PerAmount1Raw decimalAdjustment in
    let priceAdjusted := getPriceFromTickAdjusted currentTick decimals0 decimals1 in
    let value0 := mul amount0PerAmount1Human priceAdjusted in
    let value1 := Fin 1 in
    let totalValue := add value0 value1 in
    let token0ValueFraction := div value0 totalValue in
    let token1ValueFraction := div value1 totalValue in
    {| token0Ratio := token0ValueFraction;
       token1Ratio := token1ValueFraction;
       amount0PerAmount1 := Some amount0PerAmount1Human;
       inRange := true;
       belowRange := false |}.




End Ratio.

(** ** rebalancer: swapTokens *)

(** The two tests the swap code applies to a caught error. *)
Definition isNonceExpired (sendError : JsError) : bool :=
  match code sendError with
  | Some c => String.eqb c "NONCE_EXPIRED"
  | None => false
  end
  || testAnyCI ["nonce too low"; "nonce has already been used"] (message sendError).

Definition retryableRouteError (attemptError : JsError) : bool :=
  testAnyCI ["Call failed"; "Return amount is not enough";
             "TransferHelper: TRANSFER_FROM_FAILED"] (message attemptError).

Section Submit.
Variable cfg : Config.
Variable env : Web3.Env.
Local Open Scope js_scope.

Definition delay : M unit := n <- record Delay ;; ret tt.

(** The submit block both variants share:
    [try { receipt = await sendTransaction(tx) } catch (sendError) { ... }] *)
Definition submitWithNonceRetry : M Receipt :=
  tryCatch (Web3.sendTransaction cfg env)
    (fun sendError =>
       if negb (isNonceExpired sendError) then throw sendError
       else
         Web3.nonceManager_reset ;;;
         Web3.sendTransaction cfg env).

End Submit.

(** *** The aggregator variant *)

Module Kyber.

Record RouteData : Type := mkRouteData {
  route_amountOut     : Z;
  route_routerAddress : address
}.

Record BuiltSwap : Type := mkBuiltSwap {
  routerAddress : address;
  txData        : string;
  txValue       : Z;
  amountOut     : Z
}.

(** What the two aggregator endpoints answer ([getKyberRoute],
    [buildKyberRoute], including their own checks of the response). *)
Record Api : Type := mkApi {
  getKyberRoute   : nat -> Outcome RouteData;
  buildKyberRoute : nat -> Outcome BuiltSwap
}.

Section WithEnv.
Variable cfg : Config.
Variable env : Web3.Env.
Variable api : Api.
Local Open Scope js_scope.

Definition validateKyberRouter (routerAddress : address) : M unit :=
  let allowedRouters := allowedRouters cfg in
  if Nat.eqb (List.length allowedRouters) 0 then ret tt
  else
    let isAllowed :=
      existsb (fun allowed => String.eqb (toLowerCase allowed) (toLowerCase routerAddress))
              allowedRouters in
    if negb isAllowed
    then throw (newError ("Kyber returned non-allowlisted router: " ++ routerAddress))
    else ret tt.

Definition runSwapAttempt (amountIn : Z) : M Receipt :=
  routeData <- await KyberRoute (getKyberRoute api) ;;
  builtSwap <- await KyberBuild (buildKyberRoute api) ;;
  if negb (String.eqb (toLowerCase (route_routerAddress routeData))
                      (toLowerCase (routerAddress builtSwap)))
  then throw (newError ("Kyber router mismatch between route and build: "
                          ++ route_routerAddress routeData ++ " != "
                          ++ routerAddress builtSwap))
  else
    validateKyberRouter (routerAddress builtSwap) ;;;
    Web3.approveToken env amountIn ;;;
    delay ;;;
    submitWithNonceRetry cfg env.

(** [swapTokens]: [None] is the [null] the source returns. *)
Definition swapTokens (amountIn : Z) : M (option Receipt) :=
  if amountIn =? 0 then ret None
  else
    tryCatch
      (receipt <- tryCatch (runSwapAttempt amountIn)
                    (fun attemptError =>
                       if negb (retryableRouteError attemptError)
                       then throw attemptError
                       else delay ;;; runSwapAttempt amountIn) ;;
       ret (Some receipt))
      (fun error => ret None).

End WithEnv.
End Kyber.

(** *** The direct router variant *)

Module Direct.

(** What the pool, the quoter, the router and Permit2 answer. *)
Record Contracts : Type := mkContracts {
  poolTickSpacing  : nat -> Outcome Z;
  quoteExactInputSingle : nat -> Outcome Z;         (* quoteResult[0] *)
  routerPermit2    : nat -> Outcome address;
  permit2Allowance : nat -> Outcome Z;
  permit2Approve   : nat -> Z -> Outcome string;    (* at a nonce *)
  permit2Wait      : nat -> Outcome unit;
  populateExecute  : nat -> Z -> Z -> Outcome unit  (* amountIn, amountOutMinimum *)
}.

(** [(expectedOut * BigInt(10000 - slippageBps)) / 10000n] *)
Definition amountOutMinimum (cfg : Config) (expectedOut : Z) : Z :=
  Z.quot (expectedOut * (10000 - slippageBps cfg)) 10000.

Section WithEnv.
Variable cfg : Config.
Variable env : Web3.Env.
Variable ctr : Contracts.
Local Open Scope js_scope.

Definition swapAttempt (amountIn : Z) : M Receipt :=
  tickSpacing <- await PoolTickSpacing (poolTickSpacing ctr) ;;
  expectedOut <- await QuoteExactInputSingle (quoteExactInputSingle ctr) ;;
  let amountOutMinimum := amountOutMinimum cfg expectedOut in
  permit2Address <- await RouterPermit2 (routerPermit2 ctr) ;;
  Web3.approveToken env amountIn ;;;
  p2Amount <- await Permit2Allowance (permit2Allowance ctr) ;;
  (if p2Amount <? amountIn then
     permit2Tx <- Web3.nonceManager_sendTransaction env Permit2Approve (permit2Approve ctr) ;;
     await Permit2Wait (permit2Wait ctr) ;;;
     delay
   else ret tt) ;;;
  await PopulateExecute
    (fun n => populateExecute ctr n amountIn amountOutMinimum) ;;;
  submitWithNonceRetry cfg env.

Definition swapTokens (amountIn : Z) : M (option Receipt) :=
  if amountIn =? 0 then ret None
  else
    tryCatch (receipt <- swapAttempt amountIn ;; ret (Some receipt))
             (fun error => ret None).

End WithEnv.
End Direct.

(** ** index: the check cycle and the rebalance descriptor

    JavaScript runs one piece of code at a time and switches only at an
    [await].  The bot is therefore a transition system whose steps are the
    pieces of code between two awaits.  [cycles] holds every invocation of
    [runCheckCycle] that got past the latch and is suspended at an await;
    nothing in the state type bounds their number. *)

Module Orchestrator.

(** Where an invocation of [runCheckCycle] is suspended. *)
Inductive Running : Type :=
| Scanning
    (* in [checkAndRebalance], awaiting [monitor.checkAllPositions] *)
| Between (rest : list Monitor.Result)
    (* in the [for] loop over the candidates, before the next one *)
| InRebalance (position : Monitor.Result) (rest : list Monitor.Result).
    (* awaiting [rebalancer.rebalance(position, newRange)] *)

Record Bot : Type := mkBot {
  isRunning         : bool;
  isCheckInProgress : bool;
  pendingRebalance  : option Descriptor;
  cycles            : list Running
}.

(** The state [start()] leaves before its first [runCheckCycle]. *)
Definition started : Bot :=
  {| isRunning := true; isCheckInProgress := false;
     pendingRebalance := None; cycles := [] |}.

Inductive Event : Type :=
| Fire
    (* the timer, or [start()], calls [runCheckCycle] *)
| Scanned (i : nat) (positions : list Monitor.Result)
    (* [checkAllPositions] of cycle [i] resolves *)
| Begin (i : nat)
    (* the loop of cycle [i] calls [rebalance] on its next candidate *)
| StageDone (i : nat) (ok : bool)
    (* the awaited work of the current stage resolves, or throws *)
| Finish (i : nat)
    (* the loop of cycle [i] is over: the [finally] block runs *)
| Stop.

Inductive Seen : Type :=
| Nothing
| Skipping          (* 'Previous check cycle is still running; skipping ...' *)
| CycleStarted
| Created (d : Descriptor)   (* [this.pendingRebalance = { ... }] ran *)
| Rebalanced
| RebalanceFailed
| CycleEnded.

Section WithConfig.
Variable cfg : Config.

(** [rebalanceCandidates] of [checkAndRebalance]. *)
Definition rebalanceCandidates (positions : list Monitor.Result) : list Monitor.Result :=
  let outOfRangePositions :=
    filter (fun p => negb (Monitor.isInRange (Monitor.status p))) positions in
  let threshold := rebalanceThreshold cfg in
  filter (fun p =>
            let percentOut := Monitor.percentOutOfRange (Monitor.status p) in
            Qle_bool threshold percentOut) outOfRangePositions.

(** The positions the [for] loop of [checkAndRebalance] walks: the
    candidates when [config.autoRebalance] is set, none otherwise.  (The
    auto-stake loop and the bootstrap from wallet balances, which run in the
    same cycle, touch neither the latch nor the descriptor and are left
    out.) *)
Definition toRebalance (positions : list Monitor.Result) : list Monitor.Result :=
  if autoRebalance cfg then rebalanceCandidates positions else [].

Definition newRangeFor (position : Monitor.Result) : Monitor.NewRange :=
  Monitor.calculateNewRange
    (Monitor.currentTick (Monitor.status position))
    (Monitor.r_tickSpacing position)
    (rangeMultiplier cfg).

Definition hasGauge (position : Monitor.Result) : bool :=
  match Monitor.r_gaugeAddress position with
  | Some _ => true
  | None => false
  end.

(** The synchronous head of [rebalance]: the descriptor is stored, then the
    stage of the first awaited action is written into it. *)
Definition beginRebalance (position : Monitor.Result) : Descriptor :=
  let newRange := newRangeFor position in
  let d := {| d_tokenId := Monitor.r_tokenId position;
              d_tickLower := Monitor.newTickLower newRange;
              d_tickUpper := Monitor.newTickUpper newRange;
              stage := starting |} in
  {| d_tokenId := d_tokenId d; d_tickLower := d_tickLower d;
     d_tickUpper := d_tickUpper d;
     stage := if Monitor.r_isStaked position && hasGauge position
              then unstaking else withdrawing |}.

(** What [rebalance] does when the awaited work of stage [s] is over:
    [inl s'] it writes the next stage, [inr true] it clears the descriptor
    and returns, [inr false] it throws and leaves the descriptor. *)
Definition afterStage (position : Monitor.Result) (s : Stage) (ok : bool)
  : Stage + bool :=
  match s with
  | starting => inl withdrawing
  | unstaking => inl withdrawing            (* a failed unstake is logged only *)
  | withdrawing => if ok then inl checking_balances else inr false
  | checking_balances => if ok then inl calculating_ratio else inr false
  | calculating_ratio => if ok then inl swapping else inr false
  | swapping => if ok then inl creating_position else inr false
  | creating_position =>
      if ok then (if hasGauge position then inl staking else inr true)
      else inr false
  | staking => inr true                     (* a failed stake is logged only *)
  end.

Definition setStage (s : Stage) (d : Descriptor) : Descriptor :=
  {| d_tokenId := d_tokenId d; d_tickLower := d_tickLower d;
     d_tickUpper := d_tickUpper d; stage := s |}.

Fixpoint replace {A} (i : nat) (x : A) (l : list A) : list A :=
  match l, i with
  | [], _ => []
  | _ :: rest, O => x :: rest
  | y :: rest, S j => y :: replace j x rest
  end.

Fixpoint remove {A} (i : nat) (l : list A) : list A :=
  match l, i with
  | [], _ => []
  | _ :: rest, O => rest
  | y :: rest, S j => y :: remove j rest
  end.

Definition step (bot : Bot) (ev : Event) : Bot * Seen :=
  if negb (isRunning bot) then (bot, Nothing) else
  match ev with
  | Fire =>
      if isCheckInProgress bot then (bot, Skipping)
      else ({| isRunning := true; isCheckInProgress := true;
               pendingRebalance := pendingRebalance bot;
               cycles := cycles bot ++ [Scanning] |}, CycleStarted)
  | Scanned i positions =>
      match nth_error (cycles bot) i with
      | Some Scanning =>
          ({| isRunning := true; isCheckInProgress := isCheckInProgress bot;
              pendingRebalance := pendingRebalance bot;
              cycles := replace i (Between (toRebalance positions)) (cycles bot) |},
           Nothing)
      | _ => (bot, Nothing)
      end
  | Begin i =>
      match nth_error (cycles bot) i with
      | Some (Between (position :: rest)) =>
          let d := beginRebalance position in
          ({| isRunning := true; isCheckInProgress := isCheckInProgress bot;
              pendingRebalance := Some d;
              cycles := replace i (InRebalance position rest) (cycles bot) |},
           Created d)
      | _ => (bot, Nothing)
      end
  | StageDone i ok =>
      match nth_error (cycles bot) i with
      | Some (InRebalance position rest) =>
          match pendingRebalance bot with
          | None =>
              (* writing [stage] into [null] throws inside [rebalance] *)
              ({| isRunning := true; isCheckInProgress := isCheckInProgress bot;
                  pendingRebalance := None;
                  cycles := replace i (Between rest) (cycles bot) |},
               RebalanceFailed)
          | Some d =>
              match afterStage position (stage d) ok with
              | inl s' =>
                  ({| isRunning := true; isCheckInProgress := isCheckInProgress bot;
                      pendingRebalance := Some (setStage s' d);
                      cycles := cycles bot |}, Nothing)
              | inr true =>
                  ({| isRunning := true; isCheckInProgress := isCheckInProgress bot;
                      pendingRebalance := None;
                      cycles := replace i (Between rest) (cycles bot) |},
                   Rebalanced)
              | inr false =>
                  ({| isRunning := true; isCheckInProgress := isCheckInProgress bot;
                      pendingRebalance := Some d;
                      cycles := replace i (Between rest) (cycles bot) |},
                   RebalanceFailed)
              end
          end
      | _ => (bot, Nothing)
      end
  | Finish i =>
      match nth_error (cycles bot) i with
      | Some (Between []) =>
          ({| isRunning := true; isCheckInProgress := false;
              pendingRebalance := pendingRebalance bot;
              cycles := remove i (cycles bot) |}, CycleEnded)
      | _ => (bot, Nothing)
      end
  | Stop =>
      ({| isRunning := false; isCheckInProgress := isCheckInProgress bot;
          pendingRebalance := pendingRebalance bot;
          cycles := cycles bot |}, Nothing)
  end.

Fixpoint run (bot : Bot) (events : list Event) : Bot :=
  match events with
  | [] => bot
  | ev :: rest => run (fst (step bot ev)) rest
  end.

(** The invocations of [rebalance] that are suspended in a state. *)
Fixpoint rebalancing (cs : list Running) : list Monitor.Result :=
  match cs with
  | [] => []
  | InRebalance position _ :: rest => position :: rebalancing rest
  | _ :: rest => rebalancing rest
  end.

(** Single flight, as a property of a state: at most one invocation of
    [runCheckCycle] is past the latch, the latch is set while it is, and a
    suspended [rebalance] owns the stored descriptor. *)
Definition singleFlight (bot : Bot) : Prop :=
  (List.length (cycles bot) <= 1)%nat /\
  (cycles bot <> [] -> isCheckInProgress bot = true) /\
  (forall position rest,
      In (InRebalance position rest) (cycles bot) ->
      exists d, pendingRebalance bot = Some d /\
                d_tokenId d = Monitor.r_tokenId position).

(** The specification's reading of the descriptor as a lock: a descriptor
    is only ever created when none is stored. *)
Definition descriptorIsLock : Prop :=
  forall (events : list Event) (i : nat) (d : Descriptor),
    snd (step (run started events) (Begin i)) = Created d ->
    pendingRebalance (run started events) = None.

End WithConfig.
End Orchestrator.

(** ** Concrete configurations and environments used by the examples *)

Module Scenario.

(** The defaults of config.js. *)
Definition cfg0 : Config :=
  {| gasStrategy := "auto"; maxGasPrice := 100; priorityFeeWei := 1000000;
     slippageBps := 300; allowedRouters := []; autoRebalance := true;
     rangeMultiplier := 26 # 10; rebalanceThreshold := 20 |}.

Definition receipt0 : Receipt := {| hash := "0xswap"; blockNumber := 1 |}.

(** A chain on which everything succeeds. *)
Definition envOk : Web3.Env :=
  {| Web3.blockBaseFee := fun _ => Ok 5000000;
     Web3.feeData := fun _ => Ok {| Web3.maxFeePerGas := 6000000;
                                    Web3.maxPriorityFeePerGas := 1000000 |};
     Web3.estimateGas := fun _ => Ok 200000;
     Web3.accountNonce := fun _ => 11;
     Web3.walletSend := fun _ _ => Ok "0xswap";
     Web3.txWait := fun _ => Ok (Some receipt0);
     Web3.tokenInfo := fun _ => Ok "TKN";
     Web3.allowance := fun _ => Ok 0;
     Web3.tokenApprove := fun _ _ => Ok "0xapprove";
     Web3.approveWait := fun _ => Ok (Some receipt0) |}.

(** A chain whose account has moved on to nonce 11: a transaction signed
    with a lower nonce is refused with NONCE_EXPIRED. *)
Definition envNonce : Web3.Env :=
  {| Web3.blockBaseFee := Web3.blockBaseFee envOk;
     Web3.feeData := Web3.feeData envOk;
     Web3.estimateGas := Web3.estimateGas envOk;
     Web3.accountNonce := fun _ => 11;
     Web3.walletSend := fun _ tx =>
       if Web3.tx_nonce tx <? 11
       then Throw {| code := Some "NONCE_EXPIRED";
                     message := "nonce has already been used" |}
       else Ok "0xswap";
     Web3.txWait := Web3.txWait envOk;
     Web3.tokenInfo := Web3.tokenInfo envOk;
     Web3.allowance := fun _ => Ok (2 ^ 256 - 1);
     Web3.tokenApprove := Web3.tokenApprove envOk;
     Web3.approveWait := Web3.approveWait envOk |}.

(** A chain on which the first gas estimate reverts with the router's
    "Return amount is not enough". *)
Definition envRevertOnce : Web3.Env :=
  {| Web3.blockBaseFee := Web3.blockBaseFee envOk;
     Web3.feeData := Web3.feeData envOk;
     Web3.estimateGas := fun n =>
       if Nat.eqb n 0
       then Throw (newError "execution reverted: Return amount is not enough")
       else Ok 200000;
     Web3.accountNonce := fun _ => 11;
     Web3.walletSend := Web3.walletSend envOk;
     Web3.txWait := Web3.txWait envOk;
     Web3.tokenInfo := Web3.tokenInfo envOk;
     Web3.allowance := fun _ => Ok (2 ^ 256 - 1);
     Web3.tokenApprove := Web3.tokenApprove envOk;
     Web3.approveWait := Web3.approveWait envOk |}.

Definition apiOk : Kyber.Api :=
  {| Kyber.getKyberRoute := fun _ =>
       Ok {| Kyber.route_amountOut := 1000; Kyber.route_routerAddress := "0xRouter" |};
     Kyber.buildKyberRoute := fun _ =>
       Ok {| Kyber.routerAddress := "0xrouter"; Kyber.txData := "0x00";
             Kyber.txValue := 0; Kyber.amountOut := 1000 |} |}.

(** The aggregator answers the route request with an HTTP error. *)
Definition apiDown : Kyber.Api :=
  {| Kyber.getKyberRoute := fun _ =>
       Throw (newError "Kyber route request failed (HTTP 500)");
     Kyber.buildKyberRoute := Kyber.buildKyberRoute apiOk |}.

(** The quoter reverts. *)
Definition ctrQuoteReverts : Direct.Contracts :=
  {| Direct.poolTickSpacing := fun _ => Ok 100;
     Direct.quoteExactInputSingle := fun _ => Throw (newError "execution reverted");
     Direct.routerPermit2 := fun _ => Ok "0xPermit2";
     Direct.permit2Allowance := fun _ => Ok 0;
     Direct.permit2Approve := fun _ _ => Ok "0xp2";
     Direct.permit2Wait := fun _ => Ok tt;
     Direct.populateExecute := fun _ _ _ => Ok tt |}.

Definition ctrOk : Direct.Contracts :=
  {| Direct.poolTickSpacing := fun _ => Ok 100;
     Direct.quoteExactInputSingle := fun _ => Ok 1000;
     Direct.routerPermit2 := fun _ => Ok "0xPermit2";
     Direct.permit2Allowance := fun _ => Ok (2 ^ 160 - 1);
     Direct.permit2Approve := fun _ _ => Ok "0xp2";
     Direct.permit2Wait := fun _ => Ok tt;
     Direct.populateExecute := fun _ _ _ => Ok tt |}.

Definition swappingDescriptor : Descriptor :=
  {| d_tokenId := "7"; d_tickLower := -196440; d_tickUpper := -196200;
     stage := swapping |}.

(** Mid-rebalance, at the swapping stage, nothing awaited yet. *)
Definition world0 : World :=
  {| trace := []; noncePromise := None; nonceDelta := 0;
     assignedNonces := []; pendingRebalance := Some swappingDescriptor |}.


(** Two staked positions of one pool (tick spacing 1, current tick
    -196320), both far above their ranges, as the monitor reports them. *)
Definition chain0 : Monitor.Chain :=
  {| Monitor.findPool := fun _ _ => None;
     Monitor.getPool := fun _ => Ok {| Monitor.fee := 100; Monitor.tickSpacing := 1 |};
     Monitor.getCurrentPrice := fun _ => Ok (-196320);
     Monitor.poolTick := fun _ => Throw (newError "Contract is not defined");
     Monitor.getToken := fun _ => Ok "TKN" |}.

Definition position1 : Monitor.Position :=
  {| Monitor.tokenId := "1"; Monitor.token0 := "0xA"; Monitor.token1 := "0xB";
     Monitor.tickLower := -196560; Monitor.tickUpper := -196440;
     Monitor.liquidity := 10 ^ 18; Monitor.isStaked := false;
     Monitor.gaugeAddress := Some "0xG"; Monitor.poolAddress := Some "0xP" |}.

Definition position2 : Monitor.Position :=
  {| Monitor.tokenId := "2"; Monitor.token0 := "0xA"; Monitor.token1 := "0xB";
     Monitor.tickLower := -196800; Monitor.tickUpper := -196680;
     Monitor.liquidity := 10 ^ 18; Monitor.isStaked := false;
     Monitor.gaugeAddress := Some "0xG"; Monitor.poolAddress := Some "0xP" |}.

Definition results0 : list Monitor.Result :=
  Monitor.checkAllPositions chain0 [position1; position2].

(** A cycle finds both positions, starts rebalancing the first one, and
    that rebalance fails while withdrawing. *)
Definition afterFailedRebalance : Orchestrator.Bot :=
  Orchestrator.run cfg0 Orchestrator.started
    [Orchestrator.Fire; Orchestrator.Scanned 0 results0; Orchestrator.Begin 0;
     Orchestrator.StageDone 0 false].

End Scenario.

(** * More of the sources

    The remaining functions of the files above, embedded with the same
    conventions.  A read whose answer does not depend on the calls made
    before is passed as the outcome of the awaited promise. *)

(** ** monitor: findPool, getOutOfRangePositions *)

Module PoolLocator.

Definition ZeroAddress : address := "0x0000000000000000000000000000000000000000".

Definition feeTiers : list Z := [10; 20; 35; 40; 100; 500; 3000; 10000].

Definition factories (configFactory : address) : list address :=
  [configFactory;
   "0x420DD381b31aEf6683db6B902084cB0FFECe40Da";
   "0xaDe65c38CD4849aDBA595a4323a8C7DdfE89716a"].

Section WithFactories.
(** [factory.getPool(token0, token1, fee)] on the factory at an address. *)
Variable getPool : address -> address -> address -> Z -> Outcome address.

(** The inner [for (const fee of feeTiers)] with its [try]/[catch]. *)
Fixpoint tryFeeTiers (factoryAddress token0 token1 : address) (fees : list Z)
  : option address :=
  match fees with
  | [] => None
  | fee :: rest =>
      match getPool factoryAddress token0 token1 fee with
      | Ok poolAddress =>
          if negb (String.eqb poolAddress ZeroAddress) then Some poolAddress
          else tryFeeTiers factoryAddress token0 token1 rest
      | Throw _ => tryFeeTiers factoryAddress token0 token1 rest
      end
  end.

(** The outer [for (const factoryAddress of factories)]. *)
Fixpoint tryFactories (fs : list address) (token0 token1 : address) : option address :=
  match fs with
  | [] => None
  | factoryAddress :: rest =>
      match tryFeeTiers factoryAddress token0 token1 feeTiers with
      | Some poolAddress => Some poolAddress
      | None => tryFactories rest token0 token1
      end
  end.

Definition findPool (configFactory token0 token1 : address) : option address :=
  tryFactories (factories configFactory) token0 token1.

(** The first answer of a list that is a pool other than the zero address. *)
Fixpoint firstPool (answers : list (Outcome address)) : option address :=
  match answers with
  | [] => None
  | Ok poolAddress :: rest =>
      if negb (String.eqb poolAddress ZeroAddress) then Some poolAddress
      else firstPool rest
  | Throw _ :: rest => firstPool rest
  end.

(** The lookups in the order the loops make them. *)
Definition lookups (configFactory token0 token1 : address) : list (Outcome address) :=
  map (fun ff => getPool (fst ff) token0 token1 (snd ff))
      (list_prod (factories configFactory) feeTiers).

End WithFactories.
End PoolLocator.

Module MonitorQueries.

(** [getOutOfRangePositions(userAddress, thresholdPercent)], on the positions
    [getUserPositions] returned. *)
Definition getOutOfRangePositions (chain : Monitor.Chain)
    (positions : list Monitor.Position) (thresholdPercent : Q) : list Monitor.Result :=
  let allPositions := Monitor.checkAllPositions chain positions in
  filter (fun p =>
            negb (Monitor.isInRange (Monitor.status p))
            && Qle_bool thresholdPercent (Monitor.percentOutOfRange (Monitor.status p)))
         allPositions.

End MonitorQueries.

(** ** index: candidate selection and the range of a first position *)

Module Cycle.

(** [unstakedInRangePositions] of [checkAndRebalance]. *)
Definition unstakedInRangePositions (positions : list Monitor.Result) : list Monitor.Result :=
  filter (fun p =>
            Monitor.isInRange (Monitor.status p)
            && negb (Monitor.r_isStaked p)
            && Orchestrator.hasGauge p)
         positions.

(** The range [checkAndCreatePositionFromWallet] computes around the current
    tick: both ends are rounded down. *)
Definition walletRange (cfg : Config) (currentTick tickSpacing : Z) : Monitor.NewRange :=
  let rangeWidth :=
    (inject_Z tickSpacing * inject_Z (Qfloor (30 / inject_Z tickSpacing))
     * rangeMultiplier cfg)%Q in
  let tickLower :=
    Qfloor ((inject_Z currentTick - rangeWidth) / inject_Z tickSpacing) * tickSpacing in
  let tickUpper :=
    Qfloor ((inject_Z currentTick + rangeWidth) / inject_Z tickSpacing) * tickSpacing in
  {| Monitor.newTickLower := tickLower; Monitor.newTickUpper := tickUpper |}.

End Cycle.

(** ** web3: more on the signer and the wallet *)

(** An awaited read whose answer is given. *)
Definition answer {A} (o : Outcome A) : M A := fun w => (o, w).

Module Signer.

(** The nonce [getNonce('pending')] would return in a state. *)
Definition nextNonce (env : Web3.Env) (w : World) : Z :=
  match noncePromise w with
  | Some base => base + nonceDelta w
  | None => Web3.accountNonce env (calls AccountNonce (trace w)) + nonceDelta w
  end.

(** A chain like [env] whose node refuses, as the protocol does, a
    transaction with [maxPriorityFeePerGas > maxFeePerGas]. *)
Definition strictWallet (env : Web3.Env) : Web3.Env :=
  {| Web3.blockBaseFee := Web3.blockBaseFee env;
     Web3.feeData := Web3.feeData env;
     Web3.estimateGas := Web3.estimateGas env;
     Web3.accountNonce := Web3.accountNonce env;
     Web3.walletSend := fun n tx =>
       if Web3.tx_maxPriorityFeePerGas tx >? Web3.tx_maxFeePerGas tx
       then Throw (newError "max priority fee per gas higher than max fee per gas")
       else Web3.walletSend env n tx;
     Web3.txWait := Web3.txWait env;
     Web3.tokenInfo := Web3.tokenInfo env;
     Web3.allowance := Web3.allowance env;
     Web3.tokenApprove := Web3.tokenApprove env;
     Web3.approveWait := Web3.approveWait env |}.

End Signer.

(** ** rebalancer: createPosition *)

Module Mint.

(** A log of the mint receipt, as the two interfaces of [createPosition]
    parse it. *)
Inductive Log : Type :=
| IncreaseLiquidity (tokenId : Z)
| Transfer (from to : address) (tokenId : Z)
| OtherLog.

Record MintParams : Type := mkMintParams {
  tickSpacing    : Z;
  tickLower      : Z;
  tickUpper      : Z;
  amount0Desired : Z;
  amount1Desired : Z;
  amount0Min     : Z;
  amount1Min     : Z
}.

(** What the pool and the position manager answer, and the logs a receipt
    carries. *)
Record Contracts : Type := mkContracts {
  poolFee         : Outcome Z;
  poolTickSpacing : Outcome Z;
  mintStaticCall  : MintParams -> Outcome Z;
  receiptLogs     : Receipt -> list Log
}.

(** The first loop over the logs: the first [IncreaseLiquidity]. *)
Fixpoint firstIncreaseLiquidity (logs : list Log) : option Z :=
  match logs with
  | [] => None
  | IncreaseLiquidity tokenId :: _ => Some tokenId
  | _ :: rest => firstIncreaseLiquidity rest
  end.

(** The second loop: the first [Transfer] from the zero address. *)
Fixpoint firstMintTransfer (logs : list Log) : option Z :=
  match logs with
  | [] => None
  | Transfer from _ tokenId :: rest =>
      if String.eqb from "0x0000000000000000000000000000000000000000"
      then Some tokenId else firstMintTransfer rest
  | _ :: rest => firstMintTransfer rest
  end.

Definition tokenIdFromLogs (logs : list Log) : option Z :=
  match firstIncreaseLiquidity logs with
  | Some tokenId => Some tokenId
  | None => firstMintTransfer logs
  end.

(** [(amount * BigInt(10000 - slippageBps)) / 10000n] *)
Definition withSlippage (cfg : Config) (amount : Z) : Z :=
  Z.quot (amount * (10000 - slippageBps cfg)) 10000.

Section WithEnv.
Variable cfg : Config.
Variable env : Web3.Env.
Variable ctr : Contracts.
Local Open Scope js_scope.

(** [createPosition]: [None] is the [null] the source returns. *)
Definition createPosition (tickLower tickUpper amount0 amount1 : Z) : M (option Z) :=
  tryCatch
    (fee <- answer (poolFee ctr) ;;
     tickSpacing <- answer (poolTickSpacing ctr) ;;
     Web3.approveToken env amount0 ;;;
     Web3.approveToken env amount1 ;;;
     delay ;;;
     let amount0Min := withSlippage cfg amount0 in
     let amount1Min := withSlippage cfg amount1 in
     let mintParams :=
       {| tickSpacing := tickSpacing; tickLower := tickLower; tickUpper := tickUpper;
          amount0Desired := amount0; amount1Desired := amount1;
          amount0Min := amount0Min; amount1Min := amount1Min |} in
     simulated <- tryCatch (callResult <- answer (mintStaticCall ctr mintParams) ;;
                            ret true)
                           (fun staticError => ret false) ;;
     if negb simulated then ret None
     else
       receipt <- Web3.sendTransaction cfg env ;;
       ret (tokenIdFromLogs (receiptLogs ctr receipt)))
    (fun error => ret None).

End WithEnv.
End Mint.

(** ** rebalancer: the gauge *)

Module Gauge.

(** What the position manager and the gauge answer.  In the trace the NFT
    approval is a [TokenApprove] followed by an [ApproveWait], the deposit
    or withdrawal a [WalletSend] followed by a [TxWait]. *)
Record Contracts : Type := mkContracts {
  getApproved : Outcome address;
  approve     : nat -> Z -> Outcome string;   (* pm.approve, at a nonce *)
  approveWait : nat -> Outcome unit;
  deposit     : nat -> Z -> Outcome string;   (* gauge.deposit, at a nonce *)
  depositWait : nat -> Outcome Receipt;
  withdraw    : nat -> Z -> Outcome string;   (* gauge.withdraw, at a nonce *)
  withdrawWait : nat -> Outcome Receipt
}.

Section WithEnv.
Variable env : Web3.Env.
Variable ctr : Contracts.
Local Open Scope js_scope.

Definition unstakeFromGauge : M Receipt :=
  tx <- Web3.nonceManager_sendTransaction env WalletSend (withdraw ctr) ;;
  receipt <- await TxWait (withdrawWait ctr) ;;
  ret receipt.

Definition stakeToGauge (gaugeAddress : address) : M Receipt :=
  approved <- answer (getApproved ctr) ;;
  (if negb (String.eqb (toLowerCase approved) (toLowerCase gaugeAddress)) then
     approveTx <- Web3.nonceManager_sendTransaction env TokenApprove (approve ctr) ;;
     await ApproveWait (approveWait ctr) ;;;
     delay
   else ret tt) ;;;
  tx <- Web3.nonceManager_sendTransaction env WalletSend (deposit ctr) ;;
  receipt <- await TxWait (depositWait ctr) ;;
  ret receipt.

End WithEnv.
End Gauge.

(** ** Invariants of the check cycle *)

Module CycleInvariants.
Import Orchestrator.

(** The latch and the running cycle go together. *)
Definition latched (bot : Bot) : Prop :=
  (cycles bot = [] /\ isCheckInProgress bot = false) \/
  (exists c, cycles bot = [c] /\ isCheckInProgress bot = true).


End CycleInvariants.

(** ** rebalancer: rebalance

    One invocation of [rebalance(positionInfo, newRange)], from the store
    of the descriptor to its clearing.  The outer [try ... catch] logs and
    rethrows and is the identity here.  Other invocations that may run
    while this one is suspended are the subject of [Orchestrator]. *)

Module Rebalance.

(** The six values read with one [Promise.all] at 'checking_balances'. *)
Record Balances : Type := mkBalances {
  amount0   : Z;
  amount1   : Z;
  decimals0 : Z;
  decimals1 : Z;
  symbol0   : string;
  symbol1   : string
}.

(** What the position manager, the tokens and the pool answer.
    [inRangeSwap] is the outcome of the floating-point block of the
    in-range branch: [None] when the imbalance is within
    [MIN_SWAP_VALUE_USDC], [Some (zeroForOne, amountWei)] for the swap it
    asks for, thrown when [parseUnits] rejects the formatted amount.  Its
    arithmetic is not modelled; every statement below holds for every such
    outcome. *)
Record Chain : Type := mkChain {
  multicall      : nat -> Z -> Outcome string;   (* pm.multicall, at a nonce *)
  multicallWait  : nat -> Outcome Receipt;
  walletBalances : Outcome Balances;
  poolState      : Outcome Ratio.PoolState;      (* the reads of calculateOptimalRatio *)
  slot0          : Outcome Z;
  inRangeSwap    : Balances -> Z -> Ratio.RatioResult -> Outcome (option (bool * Z));
  newBalance0    : Outcome Z;                    (* balanceOf after the swap *)
  newBalance1    : Outcome Z
}.

(** The object [rebalance] returns. *)
Record Rebalanced : Type := mkRebalanced {
  newTokenId   : Z;
  newTickLower : Z;
  newTickUpper : Z;
  amount0Added : Z;
  amount1Added : Z
}.

(** [this.pendingRebalance = { ... }] *)
Definition storeDescriptor (d : Descriptor) : M unit :=
  fun w =>
    (Ok tt,
     {| trace := trace w; noncePromise := noncePromise w;
        nonceDelta := nonceDelta w; assignedNonces := assignedNonces w;
        pendingRebalance := Some d |}).

(** [this.pendingRebalance.stage = s]; on [null] the assignment throws a
    TypeError. *)
Definition writeStage (s : Stage) : M unit :=
  fun w =>
    match pendingRebalance w with
    | Some d =>
        (Ok tt,
         {| trace := trace w; noncePromise := noncePromise w;
            nonceDelta := nonceDelta w; assignedNonces := assignedNonces w;
            pendingRebalance :=
              Some {| d_tokenId := d_tokenId d; d_tickLower := d_tickLower d;
                      d_tickUpper := d_tickUpper d; stage := s |} |})
    | None =>
        (Throw (newError "Cannot set properties of null (setting 'stage')"), w)
    end.

(** [this.pendingRebalance = null] *)
Definition clearDescriptor : M unit :=
  fun w =>
    (Ok tt,
     {| trace := trace w; noncePromise := noncePromise w;
        nonceDelta := nonceDelta w; assignedNonces := assignedNonces w;
        pendingRebalance := None |}).

Section WithEnv.
Variable cfg : Config.
Variable env : Web3.Env.
(** [swapTokens(tokenIn, tokenOut, amount, pool)] of either variant;
    [true] swaps token0 for token1. *)
Variable swapTokens : bool -> Z -> M (option Receipt).
Variable chain : Chain.
Variable pm : Mint.Contracts.
Variable gauge : Gauge.Contracts.
Local Open Scope js_scope.

(** The block every swapping branch repeats: swap, and on success wait and
    read both balances again; [null] from the swap aborts the rebalance. *)
Definition swapAndReread (zeroForOne : bool) (amount : Z) (fromSymbol toSymbol : string)
  : M (Z * Z) :=
  swapResult <- swapTokens zeroForOne amount ;;
  match swapResult with
  | Some _ =>
      delay ;;;
      newAmount0 <- answer (newBalance0 chain) ;;
      newAmount1 <- answer (newBalance1 chain) ;;
      ret (newAmount0, newAmount1)
  | None =>
      throw (newError ("Swap " ++ fromSymbol ++ " -> " ++ toSymbol
                         ++ " failed; aborting rebalance before mint"))
  end.

(** Step 5: the amounts to add after the swap, if one is needed. *)
Definition balanceTokens (b : Balances) (ratio : Ratio.RatioResult) : M (Z * Z) :=
  if negb (Ratio.inRange ratio) then
    if Ratio.belowRange ratio then
      if amount1 b >? 0
      then swapAndReread false (amount1 b) (symbol1 b) (symbol0 b)
      else ret (amount0 b, amount1 b)
    else
      if amount0 b >? 0
      then swapAndReread true (amount0 b) (symbol0 b) (symbol1 b)
      else ret (amount0 b, amount1 b)
  else
    currentTickForPrice <- answer (slot0 chain) ;;
    plan <- answer (inRangeSwap chain b currentTickForPrice ratio) ;;
    match plan with
    | Some (true, amount0ToSwapWei) =>
        swapAndReread true amount0ToSwapWei (symbol0 b) (symbol1 b)
    | Some (false, amount1ToSwapWei) =>
        swapAndReread false amount1ToSwapWei (symbol1 b) (symbol0 b)
    | None => ret (amount0 b, amount1 b)
    end.

Definition rebalance (position : Monitor.Result) (newRange : Monitor.NewRange)
  : M Rebalanced :=
  let tickLower := Monitor.newTickLower newRange in
  let tickUpper := Monitor.newTickUpper newRange in
  storeDescriptor {| d_tokenId := Monitor.r_tokenId position;
                     d_tickLower := tickLower; d_tickUpper := tickUpper;
                     stage := starting |} ;;;
  (if Monitor.r_isStaked position && Orchestrator.hasGauge position then
     writeStage unstaking ;;;
     tryCatch (Gauge.unstakeFromGauge env gauge ;;; delay)
              (fun e => ret tt)
   else ret tt) ;;;
  writeStage withdrawing ;;;
  tx <- Web3.nonceManager_sendTransaction env WalletSend (multicall chain) ;;
  receipt <- await TxWait (multicallWait chain) ;;
  delay ;;;
  writeStage checking_balances ;;;
  b <- answer (walletBalances chain) ;;
  writeStage calculating_ratio ;;;
  pool <- answer (poolState chain) ;;
  let ratio := Ratio.calculateOptimalRatio pool tickLower tickUpper in
  writeStage swapping ;;;
  toAdd <- balanceTokens b ratio ;;
  let amount0ToAdd := fst toAdd in
  let amount1ToAdd := snd toAdd in
  writeStage creating_position ;;;
  created <- Mint.createPosition cfg env pm tickLower tickUpper amount0ToAdd amount1ToAdd ;;
  match created with
  | None => throw (newError "Failed to create new position")
  | Some newTokenId =>
      if newTokenId =? 0 then throw (newError "Failed to create new position")
      else
        delay ;;;
        match Monitor.r_gaugeAddress position with
        | Some gaugeAddress =>
            writeStage staking ;;;
            tryCatch (Gauge.stakeToGauge env gauge gaugeAddress ;;; ret tt)
                     (fun e => ret tt)
        | None => ret tt
        end ;;;
        clearDescriptor ;;;
        ret {| newTokenId := newTokenId;
               newTickLower := tickLower; newTickUpper := tickUpper;
               amount0Added := amount0ToAdd; amount1Added := amount1ToAdd |}
  end.

End WithEnv.

(** The descriptor of this rebalance is stored. *)
Definition ownsDescriptor (position : Monitor.Result) (newRange : Monitor.NewRange)
    (w : World) : Prop :=
  exists d, pendingRebalance w = Some d /\
            d_tokenId d = Monitor.r_tokenId position /\
            d_tickLower d = Monitor.newTickLower newRange /\
            d_tickUpper d = Monitor.newTickUpper newRange.

(** A computation under which the stored descriptor stays this
    rebalance's, however it ends. *)
Definition holdsDescriptor {A} (position : Monitor.Result) (newRange : Monitor.NewRange)
    (m : M A) : Prop :=
  forall w, ownsDescriptor position newRange w ->
            ownsDescriptor position newRange (snd (m w)).

(** A computation that clears the descriptor when it returns and leaves it
    stored when it throws. *)
Definition clearsOnSuccess {A} (position : Monitor.Result) (newRange : Monitor.NewRange)
    (m : M A) : Prop :=
  forall w, ownsDescriptor position newRange w ->
            match fst (m w) with
            | Ok _ => pendingRebalance (snd (m w)) = None
            | Throw _ => ownsDescriptor position newRange (snd (m w))
            end.

End Rebalance.

(** ** web3: getUserPositions

    The reads are answers of the chain; an id is carried as the string
    [tokenId.toString()] prints. *)

Module Positions.

(** The fields [getUserPositions] takes from [altPM.positions(tokenId)]. *)
Record RawPosition : Type := mkRaw {
  raw_token0      : address;
  raw_token1      : address;
  raw_tickSpacing : Z;
  raw_tickLower   : Z;
  raw_tickUpper   : Z;
  raw_liquidity   : Z
}.

Record Chain : Type := mkChain {
  gaugePool           : address -> Outcome address;
  gaugeToken0         : address -> Outcome address;
  gaugeToken1         : address -> Outcome address;
  balanceOf           : Outcome nat;            (* parseInt(altBalance.toString()) *)
  tokenOfOwnerByIndex : nat -> Outcome string;
  positions           : string -> Outcome RawPosition;
  stakedLength        : address -> Outcome nat;
  stakedByIndex       : address -> nat -> Outcome string
}.

(** A string in a condition: the empty one counts as false. *)
Definition truthy (s : string) : bool := negb (String.eqb s "").

(** [promise.catch(() => fallback)] *)
Definition orElse {A} (o : Outcome A) (fallback : A) : A :=
  match o with
  | Ok a => a
  | Throw _ => fallback
  end.

Definition orNull {A} (o : Outcome A) : option A :=
  match o with
  | Ok a => Some a
  | Throw _ => None
  end.

(** The three variables the first loop leaves behind. *)
Record GaugeInfo : Type := mkGaugeInfo {
  gaugePoolAddress : address;
  info_token0      : option address;
  info_token1      : option address
}.

Definition isPool (a : address) : bool :=
  truthy a && negb (String.eqb a PoolLocator.ZeroAddress).

Section WithChain.
Variable chain : Chain.
Variable gauges : list address.   (* config.gauges *)

(** The first loop: the variables are overwritten for every configured
    gauge until one names a pool. *)
Fixpoint gaugeInfo (gs : list address) (info : GaugeInfo) : GaugeInfo :=
  match gs with
  | [] => info
  | gaugeAddress :: rest =>
      if negb (truthy gaugeAddress) then gaugeInfo rest info
      else
        let info' :=
          {| gaugePoolAddress := orElse (gaugePool chain gaugeAddress) PoolLocator.ZeroAddress;
             info_token0 := orNull (gaugeToken0 chain gaugeAddress);
             info_token1 := orNull (gaugeToken1 chain gaugeAddress) |} in
        if isPool (gaugePoolAddress info') then info' else gaugeInfo rest info'
  end.

Definition sameToken (a : address) (b : option address) : bool :=
  match b with
  | Some b => String.eqb a b
  | None => false
  end.

(** [config.gauges[0] || null] *)
Definition firstGauge : option address :=
  match gauges with
  | gaugeAddress :: _ => if truthy gaugeAddress then Some gaugeAddress else None
  | [] => None
  end.

(** The body of the loop over the wallet's tokens: [None] when nothing is
    pushed (a read throws, or the position is empty). *)
Definition walletPosition (info : GaugeInfo) (i : nat) : option Monitor.Position :=
  match tokenOfOwnerByIndex chain i with
  | Throw _ => None
  | Ok tokenId =>
      match positions chain tokenId with
      | Throw _ => None
      | Ok pos =>
          let poolAddress :=
            if isPool (gaugePoolAddress info)
               && sameToken (raw_token0 pos) (info_token0 info)
               && sameToken (raw_token1 pos) (info_token1 info)
            then Some (gaugePoolAddress info) else None in
          if raw_liquidity pos >? 0 then
            Some {| Monitor.tokenId := tokenId;
                    Monitor.token0 := raw_token0 pos;
                    Monitor.token1 := raw_token1 pos;
                    Monitor.tickLower := raw_tickLower pos;
                    Monitor.tickUpper := raw_tickUpper pos;
                    Monitor.liquidity := raw_liquidity pos;
                    Monitor.isStaked := false;
                    Monitor.gaugeAddress := firstGauge;
                    Monitor.poolAddress := poolAddress |}
          else None
      end
  end.

(** [push] for every index below [n], in order. *)
Definition collect {A} (body : nat -> option A) (n : nat) : list A :=
  flat_map (fun i => match body i with Some a => [a] | None => [] end) (seq 0 n).

Definition walletPositions : list Monitor.Position :=
  match balanceOf chain with
  | Throw _ => []
  | Ok altBalance =>
      collect (walletPosition (gaugeInfo gauges
                 {| gaugePoolAddress := PoolLocator.ZeroAddress;
                    info_token0 := None; info_token1 := None |})) altBalance
  end.

(** The body of the loop over the tokens staked in one gauge. *)
Definition stakedPosition (gaugeAddress pool : address) (i : nat) : option Monitor.Position :=
  match stakedByIndex chain gaugeAddress i with
  | Throw _ => None
  | Ok tokenId =>
      match positions chain tokenId with
      | Throw _ => None
      | Ok pos =>
          if raw_liquidity pos >? 0 then
            Some {| Monitor.tokenId := tokenId;
                    Monitor.token0 := raw_token0 pos;
                    Monitor.token1 := raw_token1 pos;
                    Monitor.tickLower := raw_tickLower pos;
                    Monitor.tickUpper := raw_tickUpper pos;
                    Monitor.liquidity := raw_liquidity pos;
                    Monitor.isStaked := true;
                    Monitor.gaugeAddress := Some gaugeAddress;
                    Monitor.poolAddress := Some pool |}
          else None
      end
  end.

Definition stakedPositions (gaugeAddress : address) : list Monitor.Position :=
  if negb (truthy gaugeAddress) then []
  else
    let pool := orElse (gaugePool chain gaugeAddress) PoolLocator.ZeroAddress in
    let stakedLength := orElse (stakedLength chain gaugeAddress) 0%nat in
    collect (stakedPosition gaugeAddress pool) stakedLength.

Definition getUserPositions : list Monitor.Position :=
  (walletPositions ++ flat_map stakedPositions gauges)%list.

End WithChain.
End Positions.

(** ** Further concrete environments used by the examples *)

Module Fixtures.

(** The aggregator builds the swap for another router than it quoted. *)
Definition apiMismatch : Kyber.Api :=
  {| Kyber.getKyberRoute := fun _ =>
       Ok {| Kyber.route_amountOut := 1000; Kyber.route_routerAddress := "0xRouter" |};
     Kyber.buildKyberRoute := fun _ =>
       Ok {| Kyber.routerAddress := "0xOther"; Kyber.txData := "0x00";
             Kyber.txValue := 0; Kyber.amountOut := 1000 |} |}.

(** A chain on which the ERC-20 allowance is already unlimited. *)
Definition envApproved : Web3.Env := Scenario.envNonce.


(** A position manager whose mint emits the NFT transfer and then
    [IncreaseLiquidity] for token 42. *)
Definition pmOk : Mint.Contracts :=
  {| Mint.poolFee := Ok 100;
     Mint.poolTickSpacing := Ok 100;
     Mint.mintStaticCall := fun _ => Ok 42;
     Mint.receiptLogs := fun _ =>
       [Mint.OtherLog;
        Mint.Transfer "0x0000000000000000000000000000000000000000" "0xWallet" 42;
        Mint.IncreaseLiquidity 42] |}.

(** A position manager whose mint reverts in simulation. *)
Definition pmReverts : Mint.Contracts :=
  {| Mint.poolFee := Ok 100;
     Mint.poolTickSpacing := Ok 100;
     Mint.mintStaticCall := fun _ => Throw (newError "execution reverted: PSC");
     Mint.receiptLogs := Mint.receiptLogs pmOk |}.

(** A gauge and a position manager on which the NFT is approved for
    [approvedFor]. *)
Definition gaugeWith (approvedFor : address) : Gauge.Contracts :=
  {| Gauge.getApproved := Ok approvedFor;
     Gauge.approve := fun _ _ => Ok "0xapprove";
     Gauge.approveWait := fun _ => Ok tt;
     Gauge.deposit := fun _ _ => Ok "0xdeposit";
     Gauge.depositWait := fun _ => Ok Scenario.receipt0;
     Gauge.withdraw := fun _ _ => Ok "0xwithdraw";
     Gauge.withdrawWait := fun _ => Ok Scenario.receipt0 |}.

(** The position manager refuses the approval. *)
Definition gaugeApproveFails : Gauge.Contracts :=
  {| Gauge.getApproved := Ok "0x0000000000000000000000000000000000000000";
     Gauge.approve := fun _ _ => Throw (newError "execution reverted: not owner");
     Gauge.approveWait := fun _ => Ok tt;
     Gauge.deposit := fun _ _ => Ok "0xdeposit";
     Gauge.depositWait := fun _ => Ok Scenario.receipt0;
     Gauge.withdraw := fun _ _ => Ok "0xwithdraw";
     Gauge.withdrawWait := fun _ => Ok Scenario.receipt0 |}.

(** The first position of the scenario as the monitor reports it. *)
Definition result1 : Monitor.Result :=
  {| Monitor.r_tokenId := "1"; Monitor.r_poolAddress := "0xP";
     Monitor.r_token0 := "0xA"; Monitor.r_token1 := "0xB";
     Monitor.token0Symbol := "TKN"; Monitor.token1Symbol := "TKN";
     Monitor.r_fee := 100; Monitor.r_tickSpacing := 1;
     Monitor.r_isStaked := false; Monitor.r_gaugeAddress := Some "0xG";
     Monitor.status := Monitor.checkPositionStatus Scenario.position1 (-196320) |}.

Definition range1 : Monitor.NewRange :=
  {| Monitor.newTickLower := -196398; Monitor.newTickUpper := -196242 |}.

(** After the withdrawal the wallet holds both tokens in the proportion
    the new range asks for: the in-range branch sees no imbalance. *)
Definition chainBalanced : Rebalance.Chain :=
  {| Rebalance.multicall := fun _ _ => Ok "0xmulticall";
     Rebalance.multicallWait := fun _ => Ok Scenario.receipt0;
     Rebalance.walletBalances :=
       Ok {| Rebalance.amount0 := 5 * 10 ^ 17; Rebalance.amount1 := 1500000000;
             Rebalance.decimals0 := 18; Rebalance.decimals1 := 6;
             Rebalance.symbol0 := "WETH"; Rebalance.symbol1 := "USDC" |};
     Rebalance.poolState :=
       Ok {| Ratio.slot0_tick := -196320; Ratio.decimals0 := 18; Ratio.decimals1 := 6 |};
     Rebalance.slot0 := Ok (-196320);
     Rebalance.inRangeSwap := fun _ _ _ => Ok None;
     Rebalance.newBalance0 := Ok (5 * 10 ^ 17);
     Rebalance.newBalance1 := Ok 1500000000 |}.


(** A wallet with three NFTs: the read of the second throws, the third is
    empty; one more position is staked in the configured gauge. *)
Definition walletChain : Positions.Chain :=
  {| Positions.gaugePool := fun _ => Ok "0xP";
     Positions.gaugeToken0 := fun _ => Ok "0xA";
     Positions.gaugeToken1 := fun _ => Ok "0xB";
     Positions.balanceOf := Ok 3%nat;
     Positions.tokenOfOwnerByIndex := fun i =>
       match i with
       | O => Ok "1"
       | S O => Throw (newError "timeout")
       | _ => Ok "3"
       end;
     Positions.positions := fun tokenId =>
       if String.eqb tokenId "3"
       then Ok {| Positions.raw_token0 := "0xA"; Positions.raw_token1 := "0xB";
                  Positions.raw_tickSpacing := 1;
                  Positions.raw_tickLower := -196560; Positions.raw_tickUpper := -196440;
                  Positions.raw_liquidity := 0 |}
       else Ok {| Positions.raw_token0 := "0xA"; Positions.raw_token1 := "0xB";
                  Positions.raw_tickSpacing := 1;
                  Positions.raw_tickLower := -196560; Positions.raw_tickUpper := -196440;
                  Positions.raw_liquidity := 10 ^ 18 |};
     Positions.stakedLength := fun _ => Ok 1%nat;
     Positions.stakedByIndex := fun _ _ => Ok "2" |}.

End Fixtures.

(** * Properties *)

(** ** The monitor *)

Section MonitorFacts.
Import Monitor.







(** C2.  On the scenario input the source returns the zero-width range
    (-196320, -196320): [floor(30 / 60) = 0] makes the half-width zero. *)
Theorem calculateNewRange_scenario_A :
  rangeWidth 60 (26 # 10) == 0 /\
  calculateNewRange (-196320) 60 (26 # 10)
    = {| newTickLower := -196320; newTickUpper := -196320 |} /\
  calculateNewRange (-196320) 60 (26 # 10)
    <> {| newTickLower := -196440; newTickUpper := -196200 |}.
Proof.
  split; [reflexivity|]. split; [reflexivity|]. discriminate.
Qed.

(** The ticks the scenario expects are the alignment of a half-width of
    [30 * 2.6 = 78] ticks, the "30 ticks times the multiplier" of the
    source's comment. *)
Example scenario_A_from_30_ticks :
  Qfloor ((inject_Z (-196320) - 30 * (26 # 10)) / 60) * 60 = -196440 /\
  Qceiling ((inject_Z (-196320) + 30 * (26 # 10)) / 60) * 60 = -196200.
Proof. split; reflexivity. Qed.

(** On the inputs of the examples above, the binary64 computation returns
    the very ticks of the exact embedding. *)
Example calculateNewRange_binary64 :
  F64.agrees (-196320) 60 F64.multiplier_2_6
    (calculateNewRange (-196320) 60 (26 # 10)) = true /\
  F64.agrees 887272 1 F64.multiplier_2_6
    (calculateNewRange 887272 1 (26 # 10)) = true /\
  F64.agrees (-196320) 1 F64.multiplier_2_6
    (calculateNewRange (-196320) 1 (26 # 10)) = true.
Proof. repeat split; vm_compute; reflexivity. Qed.

(** The classification is by the closed interval. *)
Lemma isInRange_closed (position : Position) (tick : Z) :
  isInRange (checkPositionStatus position tick) = true
  <-> tickLower position <= tick <= tickUpper position.
Proof.
  unfold checkPositionStatus. cbn [isInRange].
  rewrite andb_true_iff, !negb_true_iff, Z.ltb_ge.
  unfold Z.gtb. destruct (tick ?= tickUpper position) eqn:E.
  - apply Z.compare_eq in E. split; [intros [? _]; lia | intros [? _]; split; [lia | reflexivity]].
  - rewrite Z.compare_lt_iff in E. split; [intros [? _]; lia | intros [? _]; split; [lia | reflexivity]].
  - rewrite Z.compare_gt_iff in E. split; [intros [_ ?]; discriminate | intros [_ ?]; lia].
Qed.

(** Before formatting, the percentage is the distance to the boundary that
    was crossed over the width of the range, times 100. *)
Lemma percentOutOfRangeRaw_formula (position : Position) (tick : Z) :
  (tick < tickLower position ->
   percentOutOfRangeRaw position tick
   = (inject_Z (tickLower position - tick)
      / inject_Z (tickUpper position - tickLower position) * 100)%Q) /\
  (tickLower position <= tick -> tickUpper position < tick ->
   percentOutOfRangeRaw position tick
   = (inject_Z (tick - tickUpper position)
      / inject_Z (tickUpper position - tickLower position) * 100)%Q) /\
  (tickLower position <= tick <= tickUpper position ->
   percentOutOfRangeRaw position tick = 0%Q).
Proof.
  unfold percentOutOfRangeRaw. repeat split; intros.
  - assert (E : (tick <? tickLower position) = true) by (apply Z.ltb_lt; lia).
    rewrite E. reflexivity.
  - assert (E : (tick <? tickLower position) = false) by (apply Z.ltb_ge; lia).
    assert (E' : (tick >? tickUpper position) = true) by (apply Z.gtb_lt; lia).
    rewrite E, E'. reflexivity.
  - assert (E : (tick <? tickLower position) = false) by (apply Z.ltb_ge; lia).
    assert (E' : (tick >? tickUpper position) = false).
    { unfold Z.gtb. destruct (tick ?= tickUpper position) eqn:C; try reflexivity.
      rewrite Z.compare_gt_iff in C. lia. }
    rewrite E, E'. reflexivity.
Qed.

(** C4.  The position of scenario A, looked at when the current tick equals
    its upper tick, is classified in range by the monitor, with 0.00 percent
    out of range; the half-open interval would make it out of range. *)
Theorem checkPositionStatus_at_tickUpper :
  let position := {| tokenId := "1"; token0 := "0xA"; token1 := "0xB";
                     tickLower := -196560; tickUpper := -196440;
                     liquidity := 10 ^ 18; isStaked := false;
                     gaugeAddress := None; poolAddress := None |} in
  isInRange (checkPositionStatus position (-196440)) = true /\
  isAboveRange (checkPositionStatus position (-196440)) = false /\
  percentOutOfRange (checkPositionStatus position (-196440)) == 0 /\
  ~ (tickLower position <= -196440 < tickUpper position).
Proof.
  cbn. repeat split; try reflexivity. lia.
Qed.

(** C9.  When the pool is known, its metadata and both token lookups
    succeed, and both reads of the current tick throw, the position is not
    skipped: a result is pushed whose status is the classification against
    tick 0. *)
Theorem checkAllPositions_tick_unreadable
    (chain : Chain) (positions : list Position) (position : Position)
    (pool : address) (info : PoolInfo) (symbol0 symbol1 : string)
    (e e2 : JsError) :
  In position positions ->
  match poolAddress position with
  | Some a => Some a
  | None => findPool chain (token0 position) (token1 position)
  end = Some pool ->
  getPool chain pool = Ok info ->
  getCurrentPrice chain pool = Throw e ->
  poolTick chain pool = Throw e2 ->
  getToken chain (token0 position) = Ok symbol0 ->
  getToken chain (token1 position) = Ok symbol1 ->
  exists result,
    In result (checkAllPositions chain positions) /\
    r_tokenId result = tokenId position /\
    status result = checkPositionStatus position 0 /\
    currentTick (status result) = 0 /\
    (isInRange (status result) = true
     <-> tickLower position <= 0 <= tickUpper position) /\
    percentOutOfRange (status result)
    = toFixed2 (percentOutOfRangeRaw position 0).
Proof.
  intros Hin Hpool Hinfo Hslot Htick Ht0 Ht1.
  assert (Hone : exists result,
             checkPosition chain position = Some result /\
             r_tokenId result = tokenId position /\
             status result = checkPositionStatus position 0).
  { unfold checkPosition. rewrite Hpool, Hinfo, Ht0, Ht1.
    unfold readCurrentTick. rewrite Hslot, Htick.
    eexists. split; [reflexivity|]. split; reflexivity. }
  destruct Hone as (result & Hres & Hid & Hst).
  exists result. split.
  - clear - Hin Hres. induction positions as [|p rest IH]; [contradiction|].
    cbn [checkAllPositions]. destruct Hin as [->|Hin].
    + rewrite Hres. left. reflexivity.
    + destruct (checkPosition chain p); [right|]; apply IH; exact Hin.
  - split; [exact Hid|]. split; [exact Hst|]. rewrite Hst.
    split; [reflexivity|]. split; [apply isInRange_closed | reflexivity].
Qed.

End MonitorFacts.

Lemma checkAllPositions_tick_unreadable_witness :
  exists result,
    In result
       (Monitor.checkAllPositions
          {| Monitor.findPool := fun _ _ => None;
             Monitor.getPool := fun _ => Ok {| Monitor.fee := 100; Monitor.tickSpacing := 60 |};
             Monitor.getCurrentPrice := fun _ => Throw (newError "timeout");
             Monitor.poolTick := fun _ => Throw (newError "Contract is not defined");
             Monitor.getToken := fun _ => Ok "TKN" |}
          [ {| Monitor.tokenId := "7"; Monitor.token0 := "0xA"; Monitor.token1 := "0xB";
               Monitor.tickLower := -196560; Monitor.tickUpper := -196440;
               Monitor.liquidity := 10 ^ 18; Monitor.isStaked := true;
               Monitor.gaugeAddress := Some "0xG"; Monitor.poolAddress := Some "0xP" |} ]) /\
    Monitor.r_tokenId result = "7" /\
    Monitor.currentTick (Monitor.status result) = 0 /\
    Monitor.isInRange (Monitor.status result) = false /\
    Monitor.isAboveRange (Monitor.status result) = true /\
    Monitor.percentOutOfRange (Monitor.status result) = (16370000 # 100)%Q.
Proof.
  destruct (checkAllPositions_tick_unreadable
              {| Monitor.findPool := fun _ _ => None;
                 Monitor.getPool := fun _ => Ok {| Monitor.fee := 100; Monitor.tickSpacing := 60 |};
                 Monitor.getCurrentPrice := fun _ => Throw (newError "timeout");
                 Monitor.poolTick := fun _ => Throw (newError "Contract is not defined");
                 Monitor.getToken := fun _ => Ok "TKN" |}
              [ {| Monitor.tokenId := "7"; Monitor.token0 := "0xA"; Monitor.token1 := "0xB";
                   Monitor.tickLower := -196560; Monitor.tickUpper := -196440;
                   Monitor.liquidity := 10 ^ 18; Monitor.isStaked := true;
                   Monitor.gaugeAddress := Some "0xG"; Monitor.poolAddress := Some "0xP" |} ]
              {| Monitor.tokenId := "7"; Monitor.token0 := "0xA"; Monitor.token1 := "0xB";
                 Monitor.tickLower := -196560; Monitor.tickUpper := -196440;
                 Monitor.liquidity := 10 ^ 18; Monitor.isStaked := true;
                 Monitor.gaugeAddress := Some "0xG"; Monitor.poolAddress := Some "0xP" |}
              "0xP" {| Monitor.fee := 100; Monitor.tickSpacing := 60 |} "TKN" "TKN"
              (newError "timeout") (newError "Contract is not defined")
              (or_introl eq_refl) eq_refl eq_refl eq_refl eq_refl eq_refl eq_refl)
    as (result & Hin & Hid & Hst & Htick & _ & Hpct).
  exists result. rewrite Hst in *.
  repeat split; try assumption; reflexivity.
Defined.

(** ** The fee policy *)

Section FeePolicyFacts.
Import Web3.

Lemma eip1559_ordered (cfg : Config) (baseFee : Z) :
  maxPriorityFeePerGas (eip1559 cfg baseFee) <= maxFeePerGas (eip1559 cfg baseFee).
Proof.
  unfold eip1559. cbn [maxPriorityFeePerGas maxFeePerGas].
  destruct (baseFee + priorityFeeWei cfg >? parseGwei (maxGasPrice cfg)) eqn:Hcap.
  - destruct (priorityFeeWei cfg >? parseGwei (maxGasPrice cfg)) eqn:Hclamp; [lia|].
    rewrite Z.gtb_ltb in Hclamp. apply Z.ltb_ge in Hclamp. exact Hclamp.
  - destruct (priorityFeeWei cfg >? baseFee + priorityFeeWei cfg) eqn:Hclamp; [lia|].
    rewrite Z.gtb_ltb in Hclamp. apply Z.ltb_ge in Hclamp. exact Hclamp.
Qed.

(** C8.  With the EIP-1559 strategy, a latest-block base fee in
    [0, 10^18] and a MAX_GAS_PRICE in [0, 10^18], [getGasPrice] returns
    fees with [maxPriorityFeePerGas <= maxFeePerGas]; and when the cap is
    below the configured priority fee, the fee is the cap and the priority
    fee is clamped down to it. *)
Theorem getGasPrice_valid (cfg : Config) (env : Env) (w : World) (baseFee : Z) :
  String.eqb (gasStrategy cfg) "legacy" = false ->
  blockBaseFee env (calls GetBlock (trace w)) = Ok baseFee ->
  0 <= baseFee <= 10 ^ 18 ->
  0 <= maxGasPrice cfg <= 10 ^ 18 ->
  exists g w',
    getGasPrice cfg env w = (Ok g, w') /\
    maxPriorityFeePerGas g <= maxFeePerGas g /\
    (parseGwei (maxGasPrice cfg) < priorityFeeWei cfg ->
     maxFeePerGas g = parseGwei (maxGasPrice cfg) /\
     maxPriorityFeePerGas g = maxFeePerGas g) /\
    (priorityFeeWei cfg <= parseGwei (maxGasPrice cfg) ->
     maxPriorityFeePerGas g = priorityFeeWei cfg).
Proof.
  intros Hstrategy Hblock Hbase Hcap.
  unfold getGasPrice, bind, await, record. cbn. rewrite Hblock, Hstrategy.
  eexists. eexists. split; [reflexivity|].
  split; [apply eip1559_ordered|].
  unfold eip1559. cbn [maxPriorityFeePerGas maxFeePerGas]. split.
  - intros Hlow.
    assert (E : (baseFee + priorityFeeWei cfg >? parseGwei (maxGasPrice cfg)) = true)
      by (apply Z.gtb_lt; lia).
    rewrite E.
    assert (E' : (priorityFeeWei cfg >? parseGwei (maxGasPrice cfg)) = true)
      by (apply Z.gtb_lt; lia).
    rewrite E'. split; reflexivity.
  - intros Hhigh.
    destruct (baseFee + priorityFeeWei cfg >? parseGwei (maxGasPrice cfg)) eqn:E.
    + assert (E' : (priorityFeeWei cfg >? parseGwei (maxGasPrice cfg)) = false).
      { rewrite Z.gtb_ltb. apply Z.ltb_ge. lia. }
      rewrite E'. reflexivity.
    + assert (E' : (priorityFeeWei cfg >? baseFee + priorityFeeWei cfg) = false).
      { rewrite Z.gtb_ltb. apply Z.ltb_ge. lia. }
      rewrite E'. reflexivity.
Qed.

End FeePolicyFacts.

Lemma getGasPrice_valid_witness :
  exists g w',
    Web3.getGasPrice
      {| gasStrategy := "auto"; maxGasPrice := 0; priorityFeeWei := 1000000;
         slippageBps := 300; allowedRouters := []; autoRebalance := true;
         rangeMultiplier := 26 # 10; rebalanceThreshold := 20 |}
      {| Web3.blockBaseFee := fun _ => Ok 5000000;
         Web3.feeData := fun _ => Throw (newError "unused");
         Web3.estimateGas := fun _ => Ok 21000;
         Web3.accountNonce := fun _ => 0;
         Web3.walletSend := fun _ _ => Ok "0xhash";
         Web3.txWait := fun _ => Ok None;
         Web3.tokenInfo := fun _ => Ok "TKN";
         Web3.allowance := fun _ => Ok 0;
         Web3.tokenApprove := fun _ _ => Ok "0xhash";
         Web3.approveWait := fun _ => Ok None |}
      {| trace := []; noncePromise := None; nonceDelta := 0;
         assignedNonces := []; pendingRebalance := None |}
    = (Ok g, w') /\
    Web3.maxFeePerGas g = 0 /\ Web3.maxPriorityFeePerGas g = 0.
Proof.
  destruct (getGasPrice_valid
              {| gasStrategy := "auto"; maxGasPrice := 0; priorityFeeWei := 1000000;
                 slippageBps := 300; allowedRouters := []; autoRebalance := true;
                 rangeMultiplier := 26 # 10; rebalanceThreshold := 20 |}
              {| Web3.blockBaseFee := fun _ => Ok 5000000;
                 Web3.feeData := fun _ => Throw (newError "unused");
                 Web3.estimateGas := fun _ => Ok 21000;
                 Web3.accountNonce := fun _ => 0;
                 Web3.walletSend := fun _ _ => Ok "0xhash";
                 Web3.txWait := fun _ => Ok None;
                 Web3.tokenInfo := fun _ => Ok "TKN";
                 Web3.allowance := fun _ => Ok 0;
                 Web3.tokenApprove := fun _ _ => Ok "0xhash";
                 Web3.approveWait := fun _ => Ok None |}
              {| trace := []; noncePromise := None; nonceDelta := 0;
                 assignedNonces := []; pendingRebalance := None |}
              5000000 eq_refl eq_refl)
    as (g & w' & Hrun & _ & Hclamp & _).
  - cbn. lia.
  - cbn. lia.
  - exists g, w'. split; [exact Hrun|].
    destruct Hclamp as [Hfee Hprio]; [reflexivity|].
    rewrite Hprio, Hfee. split; reflexivity.
Defined.

(** ** The ratio for a tick range *)

Section RatioFacts.
Import Num Ratio.
Local Open Scope R_scope.



















End RatioFacts.



(** ** How effects compose *)

Section EffectFacts.
Context {A B : Type}.

Lemma atMost_weaken (c : Call) (n n' : nat) (m : M A) :
  atMost c n m -> (n <= n')%nat -> atMost c n' m.
Proof. intros H Hle w. specialize (H w). lia. Qed.

Lemma atMost_ret (c : Call) (a : A) : atMost c 0 (ret a).
Proof. intros w. cbn. lia. Qed.

Lemma atMost_throw (c : Call) (e : JsError) : atMost c 0 (@throw A e).
Proof. intros w. cbn. lia. Qed.

Lemma atMost_bind (c : Call) (n1 n2 : nat) (m : M A) (k : A -> M B) :
  atMost c n1 m -> (forall a, atMost c n2 (k a)) -> atMost c (n1 + n2) (bind m k).
Proof.
  intros H1 H2 w. unfold bind. specialize (H1 w).
  destruct (m w) as [[a|e] w1]; cbn in *.
  - specialize (H2 a w1). lia.
  - lia.
Qed.

Lemma atMost_tryCatch (c : Call) (n1 n2 : nat) (m : M A) (h : JsError -> M A) :
  atMost c n1 m -> (forall e, atMost c n2 (h e)) -> atMost c (n1 + n2) (tryCatch m h).
Proof.
  intros H1 H2 w. unfold tryCatch. specialize (H1 w).
  destruct (m w) as [[a|e] w1]; cbn in *.
  - lia.
  - specialize (H2 e w1). lia.
Qed.

Lemma atMost_if (c : Call) (n1 n2 : nat) (b : bool) (m1 m2 : M A) :
  atMost c n1 m1 -> atMost c n2 m2 -> atMost c (Nat.max n1 n2) (if b then m1 else m2).
Proof. intros H1 H2 w. destruct b; [specialize (H1 w) | specialize (H2 w)]; lia. Qed.

Lemma atMost_option (c : Call) (n1 n2 : nat) (o : option B) (k : B -> M A) (m : M A) :
  (forall b, atMost c n1 (k b)) -> atMost c n2 m ->
  atMost c (Nat.max n1 n2) (match o with Some b => k b | None => m end).
Proof. intros H1 H2 w. destruct o as [b|]; [specialize (H1 b w) | specialize (H2 w)]; lia. Qed.

Lemma atMost_await (c c' : Call) (oracle : nat -> Outcome A) :
  atMost c (if sameCall c' c then 1 else 0) (await c' oracle).
Proof. intros w. unfold await, record. cbn. destruct (sameCall c' c); lia. Qed.

Lemma grows_ret (a : A) : grows (ret a).
Proof. intros c w. cbn. lia. Qed.

Lemma grows_throw (e : JsError) : grows (@throw A e).
Proof. intros c w. cbn. lia. Qed.

Lemma grows_bind (m : M A) (k : A -> M B) :
  grows m -> (forall a, grows (k a)) -> grows (bind m k).
Proof.
  intros H1 H2 c w. unfold bind. specialize (H1 c w).
  destruct (m w) as [[a|e] w1]; cbn in *.
  - specialize (H2 a c w1). lia.
  - lia.
Qed.

Lemma grows_tryCatch (m : M A) (h : JsError -> M A) :
  grows m -> (forall e, grows (h e)) -> grows (tryCatch m h).
Proof.
  intros H1 H2 c w. unfold tryCatch. specialize (H1 c w).
  destruct (m w) as [[a|e] w1]; cbn in *.
  - lia.
  - specialize (H2 e c w1). lia.
Qed.

Lemma grows_await (c' : Call) (oracle : nat -> Outcome A) : grows (await c' oracle).
Proof. intros c w. unfold await, record. cbn. destruct (sameCall c' c); lia. Qed.

Lemma keeps_ret (a : A) : keepsDescriptor (ret a).
Proof. intros w. reflexivity. Qed.

Lemma keeps_throw (e : JsError) : keepsDescriptor (@throw A e).
Proof. intros w. reflexivity. Qed.

Lemma keeps_bind (m : M A) (k : A -> M B) :
  keepsDescriptor m -> (forall a, keepsDescriptor (k a)) -> keepsDescriptor (bind m k).
Proof.
  intros H1 H2 w. unfold bind. specialize (H1 w).
  destruct (m w) as [[a|e] w1]; cbn in *.
  - rewrite (H2 a w1). exact H1.
  - exact H1.
Qed.

Lemma keeps_tryCatch (m : M A) (h : JsError -> M A) :
  keepsDescriptor m -> (forall e, keepsDescriptor (h e)) -> keepsDescriptor (tryCatch m h).
Proof.
  intros H1 H2 w. unfold tryCatch. specialize (H1 w).
  destruct (m w) as [[a|e] w1]; cbn in *.
  - exact H1.
  - rewrite (H2 e w1). exact H1.
Qed.

Lemma keeps_await (c' : Call) (oracle : nat -> Outcome A) : keepsDescriptor (await c' oracle).
Proof. intros w. reflexivity. Qed.

End EffectFacts.

Lemma atMost_record (c c' : Call) :
  atMost c (if sameCall c' c then 1 else 0) (record c').
Proof. intros w. unfold record. cbn. destruct (sameCall c' c); lia. Qed.

Lemma grows_record (c' : Call) : grows (record c').
Proof. intros c w. unfold record. cbn. destruct (sameCall c' c); lia. Qed.

Lemma keeps_record (c' : Call) : keepsDescriptor (record c').
Proof. intros w. reflexivity. Qed.

Section SignerFacts.
Variable env : Web3.Env.

Lemma atMost_getNonce (c : Call) :
  atMost c (if sameCall AccountNonce c then 1 else 0) (Web3.nonceManager_getNonce env).
Proof.
  intros w. unfold Web3.nonceManager_getNonce.
  destruct (noncePromise w); cbn; destruct (sameCall AccountNonce c); lia.
Qed.

Lemma atMost_increment (c : Call) : atMost c 0 Web3.nonceManager_increment.
Proof. intros w. cbn. lia. Qed.

Lemma atMost_assign (c : Call) (nonce : Z) : atMost c 0 (Web3.assign nonce).
Proof. intros w. cbn. lia. Qed.

Lemma atMost_reset (c : Call) :
  atMost c (if sameCall NonceReset c then 1 else 0) Web3.nonceManager_reset.
Proof. intros w. cbn. destruct (sameCall NonceReset c); lia. Qed.

Lemma grows_getNonce : grows (Web3.nonceManager_getNonce env).
Proof.
  intros c w. unfold Web3.nonceManager_getNonce.
  destruct (noncePromise w); cbn; [lia|]. destruct (sameCall AccountNonce c); lia.
Qed.

Lemma grows_increment : grows Web3.nonceManager_increment.
Proof. intros c w. cbn. lia. Qed.

Lemma grows_assign (nonce : Z) : grows (Web3.assign nonce).
Proof. intros c w. cbn. lia. Qed.

Lemma grows_reset : grows Web3.nonceManager_reset.
Proof. intros c w. cbn. destruct (sameCall NonceReset c); lia. Qed.

Lemma keeps_getNonce : keepsDescriptor (Web3.nonceManager_getNonce env).
Proof. intros w. unfold Web3.nonceManager_getNonce. destruct (noncePromise w); reflexivity. Qed.

Lemma keeps_increment : keepsDescriptor Web3.nonceManager_increment.
Proof. intros w. reflexivity. Qed.

Lemma keeps_assign (nonce : Z) : keepsDescriptor (Web3.assign nonce).
Proof. intros w. reflexivity. Qed.

Lemma keeps_reset : keepsDescriptor Web3.nonceManager_reset.
Proof. intros w. reflexivity. Qed.

End SignerFacts.

(** Syntax-directed proofs of the three properties. *)
Ltac open_ops :=
  unfold Kyber.swapTokens, Kyber.runSwapAttempt, Kyber.validateKyberRouter,
         Direct.swapTokens, Direct.swapAttempt,
         submitWithNonceRetry, delay,
         Web3.approveToken, Web3.sendTransaction, Web3.getGasPrice,
         Web3.nonceManager_sendTransaction.

Ltac atMost_go :=
  repeat first
    [ apply atMost_ret | apply atMost_throw | apply atMost_await | apply atMost_record
    | apply atMost_getNonce | apply atMost_increment | apply atMost_assign
    | apply atMost_reset
    | eapply atMost_bind; [|intros ?]
    | eapply atMost_tryCatch; [|intros ?]
    | eapply atMost_if
    | eapply atMost_option; [intros ?|]
    | progress cbv beta zeta ].

Ltac grows_go :=
  repeat first
    [ apply grows_ret | apply grows_throw | apply grows_await | apply grows_record
    | apply grows_getNonce | apply grows_increment | apply grows_assign
    | apply grows_reset
    | apply grows_bind; [|intros ?]
    | apply grows_tryCatch; [|intros ?]
    | match goal with
      | |- grows (if ?b then _ else _) => destruct b
      | |- grows (match ?o with Some _ => _ | None => _ end) => destruct o
      end
    | progress cbv beta zeta ].

Ltac keeps_go :=
  repeat first
    [ apply keeps_ret | apply keeps_throw | apply keeps_await | apply keeps_record
    | apply keeps_getNonce | apply keeps_increment | apply keeps_assign
    | apply keeps_reset
    | apply keeps_bind; [|intros ?]
    | apply keeps_tryCatch; [|intros ?]
    | match goal with
      | |- keepsDescriptor (if ?b then _ else _) => destruct b
      | |- keepsDescriptor (match ?o with Some _ => _ | None => _ end) => destruct o
      end
    | progress cbv beta zeta ].

Section SwapFacts.
Variable cfg : Config.
Variable env : Web3.Env.

Lemma sendTransaction_sends : atMost WalletSend 1 (Web3.sendTransaction cfg env).
Proof. open_ops. eapply atMost_weaken; [atMost_go | vm_compute; lia]. Qed.



Lemma submit_resets : atMost NonceReset 1 (submitWithNonceRetry cfg env).
Proof. open_ops. eapply atMost_weaken; [atMost_go | vm_compute; lia]. Qed.


Section KyberFacts.
Variable api : Kyber.Api.

Lemma runSwapAttempt_quotes (amountIn : Z) :
  atMost KyberRoute 1 (Kyber.runSwapAttempt cfg env api amountIn).
Proof. open_ops. eapply atMost_weaken; [atMost_go | vm_compute; lia]. Qed.

Lemma runSwapAttempt_grows (amountIn : Z) :
  grows (Kyber.runSwapAttempt cfg env api amountIn).
Proof. open_ops. grows_go. Qed.

(** Every attempt asks the aggregator for exactly one quote. *)
Lemma runSwapAttempt_one_quote (amountIn : Z) (w : World) :
  calls KyberRoute (trace (snd (Kyber.runSwapAttempt cfg env api amountIn w)))
  = S (calls KyberRoute (trace w)).
Proof.
  apply Nat.le_antisymm.
  - pose proof (runSwapAttempt_quotes amountIn w). lia.
  - unfold Kyber.runSwapAttempt. unfold bind at 1. unfold await at 1. unfold record.
    cbn [fst snd trace].
    match goal with
    | |- context [Kyber.getKyberRoute api ?n] =>
        destruct (Kyber.getKyberRoute api n) as [routeData|e]
    end.
    + match goal with
      | |- context [snd (?k ?w1)] =>
          assert (G : grows k); [| pose proof (G KyberRoute w1) as Hg ]
      end.
      { grows_go; open_ops; grows_go. }
      cbn [trace calls] in Hg. unfold sameCall in Hg. cbn in Hg. exact Hg.
    + cbn [snd trace calls]. unfold sameCall. cbn. lia.
Qed.

Lemma kyber_swapTokens_keeps (amountIn : Z) :
  keepsDescriptor (Kyber.swapTokens cfg env api amountIn).
Proof. open_ops. keeps_go. Qed.

Lemma kyber_swapTokens_shape (amountIn : Z) (w : World) :
  amountIn <> 0 ->
  Kyber.swapTokens cfg env api amountIn w
  = match Kyber.runSwapAttempt cfg env api amountIn w with
    | (Ok receipt, w1) => (Ok (Some receipt), w1)
    | (Throw attemptError, w1) =>
        if retryableRouteError attemptError
        then match Kyber.runSwapAttempt cfg env api amountIn (snd (delay w1)) with
             | (Ok receipt, w2) => (Ok (Some receipt), w2)
             | (Throw _, w2) => (Ok None, w2)
             end
        else (Ok None, w1)
    end.
Proof.
  intros Hne. unfold Kyber.swapTokens.
  apply Z.eqb_neq in Hne. rewrite Hne.
  unfold tryCatch, bind.
  destruct (Kyber.runSwapAttempt cfg env api amountIn w) as [[receipt|e] w1];
    [reflexivity|].
  destruct (retryableRouteError e); cbn [negb]; [|reflexivity].
  unfold delay, bind, record, ret. cbn [fst snd].
  match goal with
  | |- context [Kyber.runSwapAttempt cfg env api amountIn ?w2] =>
      destruct (Kyber.runSwapAttempt cfg env api amountIn w2) as [[receipt|e2] w3]
  end; reflexivity.
Qed.

End KyberFacts.

Section DirectFacts.
Variable ctr : Direct.Contracts.

Lemma direct_swapTokens_quotes (amountIn : Z) :
  atMost QuoteExactInputSingle 1 (Direct.swapTokens cfg env ctr amountIn).
Proof. open_ops. eapply atMost_weaken; [atMost_go | vm_compute; lia]. Qed.




Lemma direct_swapTokens_shape (amountIn : Z) (w : World) :
  amountIn <> 0 ->
  Direct.swapTokens cfg env ctr amountIn w
  = match Direct.swapAttempt cfg env ctr amountIn w with
    | (Ok receipt, w1) => (Ok (Some receipt), w1)
    | (Throw _, w1) => (Ok None, w1)
    end.
Proof.
  intros Hne. unfold Direct.swapTokens.
  apply Z.eqb_neq in Hne. rewrite Hne.
  unfold tryCatch, bind.
  destruct (Direct.swapAttempt cfg env ctr amountIn w) as [[receipt|e] w1]; reflexivity.
Qed.

End DirectFacts.

End SwapFacts.

(** ** The swap executor *)

Section SwapTheorems.
Variable cfg : Config.
Variable env : Web3.Env.
Variable api : Kyber.Api.
Variable ctr : Direct.Contracts.

(** C6, as amended.  A non-zero swap never raises: its result is a receipt
    or [null].  Aggregator variant: an attempt that fails with a message
    matching "Call failed", "Return amount is not enough" or
    "TransferHelper: TRANSFER_FROM_FAILED" is followed by exactly one more
    attempt, which requests a fresh quote, and the swap returns that
    attempt's receipt, or [null] if it fails too; after any other failure
    there is no further attempt and the swap returns [null].  Direct
    variant: there is one attempt with one quote, and any failure gives
    [null]. *)
Theorem swapTokens_retry (amountIn : Z) (w : World) :
  amountIn <> 0 ->
  (exists result, fst (Kyber.swapTokens cfg env api amountIn w) = Ok result) /\
  (calls KyberRoute (trace (snd (Kyber.swapTokens cfg env api amountIn w)))
   <= calls KyberRoute (trace w) + 2)%nat /\
  match Kyber.runSwapAttempt cfg env api amountIn w with
  | (Ok receipt, w1) =>
      Kyber.swapTokens cfg env api amountIn w = (Ok (Some receipt), w1)
  | (Throw attemptError, w1) =>
      if retryableRouteError attemptError
      then
        calls KyberRoute (trace (snd (Kyber.swapTokens cfg env api amountIn w)))
        = (calls KyberRoute (trace w) + 2)%nat /\
        Kyber.swapTokens cfg env api amountIn w
        = match Kyber.runSwapAttempt cfg env api amountIn (snd (delay w1)) with
          | (Ok receipt, w2) => (Ok (Some receipt), w2)
          | (Throw _, w2) => (Ok None, w2)
          end
      else
        Kyber.swapTokens cfg env api amountIn w = (Ok None, w1)
  end /\
  (exists result, fst (Direct.swapTokens cfg env ctr amountIn w) = Ok result) /\
  (calls QuoteExactInputSingle (trace (snd (Direct.swapTokens cfg env ctr amountIn w)))
   <= calls QuoteExactInputSingle (trace w) + 1)%nat /\
  match Direct.swapAttempt cfg env ctr amountIn w with
  | (Ok receipt, w1) =>
      Direct.swapTokens cfg env ctr amountIn w = (Ok (Some receipt), w1)
  | (Throw _, w1) =>
      Direct.swapTokens cfg env ctr amountIn w = (Ok None, w1)
  end.
Proof.
  intros Hne.
  pose proof (kyber_swapTokens_shape cfg env api amountIn w Hne) as Hk.
  pose proof (direct_swapTokens_shape cfg env ctr amountIn w Hne) as Hd.
  pose proof (runSwapAttempt_one_quote cfg env api amountIn w) as Hq1.
  destruct (Kyber.runSwapAttempt cfg env api amountIn w) as [[receipt|e] w1] eqn:E1.
  - (* the first attempt succeeds *)
    rewrite Hk. cbn [fst snd] in *.
    split; [eexists; reflexivity|]. split; [lia|]. split; [reflexivity|].
    clear Hk. pose proof (direct_swapTokens_quotes cfg env ctr amountIn w) as Hq.
    destruct (Direct.swapAttempt cfg env ctr amountIn w) as [[r|e] w2];
      rewrite Hd; (split; [eexists; reflexivity|]); split;
      try reflexivity; rewrite Hd in Hq; exact Hq.
  - cbn [snd] in Hq1.
    destruct (retryableRouteError e) eqn:Hretry.
    + (* retryable: exactly one more attempt *)
      pose proof (runSwapAttempt_one_quote cfg env api amountIn (snd (delay w1))) as Hq2.
      assert (Hdelay : calls KyberRoute (trace (snd (delay w1))) = calls KyberRoute (trace w1))
        by reflexivity.
      assert (Hcount : calls KyberRoute (trace (snd (Kyber.swapTokens cfg env api amountIn w)))
                       = (calls KyberRoute (trace w) + 2)%nat).
      { rewrite Hk.
        destruct (Kyber.runSwapAttempt cfg env api amountIn (snd (delay w1)))
          as [[r|e2] w2]; cbn [snd] in *; lia. }
      split.
      { rewrite Hk.
        destruct (Kyber.runSwapAttempt cfg env api amountIn (snd (delay w1)))
          as [[r|e2] w2]; eexists; reflexivity. }
      split; [lia|]. split; [split; [exact Hcount | exact Hk]|].
      clear Hk. pose proof (direct_swapTokens_quotes cfg env ctr amountIn w) as Hq.
      destruct (Direct.swapAttempt cfg env ctr amountIn w) as [[r|e'] w2];
        rewrite Hd; (split; [eexists; reflexivity|]); split;
        try reflexivity; rewrite Hd in Hq; exact Hq.
    + (* any other error: null, no second attempt *)
      rewrite Hk. cbn [fst snd].
      split; [eexists; reflexivity|]. split; [lia|]. split; [reflexivity|].
      clear Hk. pose proof (direct_swapTokens_quotes cfg env ctr amountIn w) as Hq.
      destruct (Direct.swapAttempt cfg env ctr amountIn w) as [[r|e'] w2];
        rewrite Hd; (split; [eexists; reflexivity|]); split;
        try reflexivity; rewrite Hd in Hq; exact Hq.
Qed.


Lemma sendTransaction_keeps : keepsDescriptor (Web3.sendTransaction cfg env).
Proof. open_ops. keeps_go. Qed.



End SwapTheorems.

(** C6, as the specification states it, fails: when the aggregator answers
    the route request with an HTTP error, which is none of the retryable
    kinds, the swap does not raise but returns [null]. *)
Lemma swapTokens_returns_null :
  retryableRouteError (newError "Kyber route request failed (HTTP 500)") = false /\
  fst (Kyber.runSwapAttempt Scenario.cfg0 Scenario.envOk Scenario.apiDown 5 Scenario.world0)
  = Throw (newError "Kyber route request failed (HTTP 500)") /\
  fst (Kyber.swapTokens Scenario.cfg0 Scenario.envOk Scenario.apiDown 5 Scenario.world0)
  = Ok None /\
  fst (Direct.swapTokens Scenario.cfg0 Scenario.envOk Scenario.ctrQuoteReverts 5 Scenario.world0)
  = Ok None.
Proof. repeat split; reflexivity. Qed.

Lemma swapTokens_retry_witness :
  fst (Kyber.runSwapAttempt Scenario.cfg0 Scenario.envRevertOnce Scenario.apiOk 5 Scenario.world0)
  = Throw (newError "execution reverted: Return amount is not enough") /\
  fst (Kyber.swapTokens Scenario.cfg0 Scenario.envRevertOnce Scenario.apiOk 5 Scenario.world0)
  = Ok (Some Scenario.receipt0) /\
  calls KyberRoute
    (trace (snd (Kyber.swapTokens Scenario.cfg0 Scenario.envRevertOnce Scenario.apiOk 5
                   Scenario.world0))) = 2%nat.
Proof.
  destruct (swapTokens_retry Scenario.cfg0 Scenario.envRevertOnce Scenario.apiOk
              Scenario.ctrOk 5 Scenario.world0)
    as (_ & _ & Hattempt & _); [discriminate|].
  vm_compute in Hattempt. destruct Hattempt as [Hcount Hrun].
  split; [reflexivity|]. split.
  - vm_compute. reflexivity.
  - vm_compute. exact Hcount.
Defined.


(** ** The check cycle *)

Section OrchestratorFacts.
Import Orchestrator.
Variable cfg : Config.

Lemma started_singleFlight : singleFlight started.
Proof.
  split; [cbn; lia|]. split; [intros H; exfalso; apply H; reflexivity|].
  intros position rest [].
Qed.

Lemma nth_error_single {X} (x : X) (i : nat) (y : X) :
  nth_error [x] i = Some y -> i = O /\ y = x.
Proof.
  destruct i as [|[|i]]; cbn; intros H; try discriminate.
  injection H as <-. split; reflexivity.
Qed.

(** A state with one running cycle, none of them inside [rebalance]. *)
Lemma singleFlight_one (bot : Bot) (c : Running) :
  cycles bot = [c] -> isCheckInProgress bot = true ->
  (forall position rest, c <> InRebalance position rest) ->
  singleFlight bot.
Proof.
  intros Hc Hon Hnot. unfold singleFlight. rewrite Hc.
  split; [cbn; lia|]. split; [intros _; exact Hon|].
  intros position rest [H|[]]. exfalso. apply (Hnot position rest). exact H.
Qed.

Lemma singleFlight_none (bot : Bot) : cycles bot = [] -> singleFlight bot.
Proof.
  intros Hc. unfold singleFlight. rewrite Hc.
  split; [cbn; lia|]. split; [intros H; exfalso; apply H; reflexivity|].
  intros position rest [].
Qed.

Lemma singleFlight_rebalancing (bot : Bot) (position : Monitor.Result)
    (rest : list Monitor.Result) (d : Descriptor) :
  cycles bot = [InRebalance position rest] -> isCheckInProgress bot = true ->
  pendingRebalance bot = Some d -> d_tokenId d = Monitor.r_tokenId position ->
  singleFlight bot.
Proof.
  intros Hc Hon Hd Hid. unfold singleFlight. rewrite Hc.
  split; [cbn; lia|]. split; [intros _; exact Hon|].
  intros position' rest' [H|[]]. injection H as <- <-.
  exists d. split; assumption.
Qed.

Lemma step_singleFlight (bot : Bot) (ev : Event) :
  singleFlight bot -> singleFlight (fst (step cfg bot ev)).
Proof.
  intros H. pose proof H as (Hlen & Hlatch & Hown). unfold step.
  destruct (isRunning bot); cbn [negb]; [|exact H].
  destruct (cycles bot) as [|c [|c' more]] eqn:Hcycles; cbn in Hlen; [| |lia].
  - (* no cycle is running *)
    destruct ev as [|i positions|i|i ok|i| ];
      try (destruct i; cbn [nth_error fst]; exact H).
    + destruct (isCheckInProgress bot); cbn [fst]; [exact H|].
      apply singleFlight_one with Scanning; [reflexivity | reflexivity | discriminate].
    + cbn [fst]. apply singleFlight_none. reflexivity.
  - (* one cycle is running, the latch is set *)
    assert (Hon : isCheckInProgress bot = true) by (apply Hlatch; discriminate).
    destruct ev as [|i positions|i|i ok|i| ].
    + rewrite Hon. exact H.
    + destruct (nth_error [c] i) as [r|] eqn:Hnth; [|exact H].
      apply nth_error_single in Hnth. destruct Hnth as [-> ->].
      destruct c; cbn [fst]; try exact H.
      eapply singleFlight_one; [reflexivity | exact Hon | discriminate].
    + destruct (nth_error [c] i) as [r|] eqn:Hnth; [|exact H].
      apply nth_error_single in Hnth. destruct Hnth as [-> ->].
      destruct c as [|[|position rest]|position rest]; cbn [fst]; try exact H.
      eapply singleFlight_rebalancing; [reflexivity | exact Hon | reflexivity | reflexivity].
    + destruct (nth_error [c] i) as [r|] eqn:Hnth; [|exact H].
      apply nth_error_single in Hnth. destruct Hnth as [-> ->].
      destruct c as [|rest|position rest]; cbn [fst]; try exact H.
      destruct (Hown position rest) as (d & Hd & Hid); [left; reflexivity|].
      rewrite Hd.
      destruct (afterStage position (stage d) ok) as [s'|[|]]; cbn [fst].
      * eapply singleFlight_rebalancing;
          [reflexivity | exact Hon | reflexivity | exact Hid].
      * eapply singleFlight_one; [reflexivity | exact Hon | discriminate].
      * eapply singleFlight_one; [reflexivity | exact Hon | discriminate].
    + destruct (nth_error [c] i) as [r|] eqn:Hnth; [|exact H].
      apply nth_error_single in Hnth. destruct Hnth as [-> ->].
      destruct c as [|[|position rest]|position rest]; cbn [fst]; try exact H.
      apply singleFlight_none. reflexivity.
    + cbn [fst]. unfold singleFlight. cbn [cycles isCheckInProgress pendingRebalance].
      split; [cbn; lia|]. split; [intros _; exact Hon|].
      intros position rest Hin. apply (Hown position rest). exact Hin.
Qed.

Lemma run_singleFlight (events : list Event) (bot : Bot) :
  singleFlight bot -> singleFlight (run cfg bot events).
Proof.
  revert bot. induction events as [|ev rest IH]; intros bot H; cbn [run].
  - exact H.
  - apply IH. apply step_singleFlight. exact H.
Qed.

Lemma rebalancing_bound (cs : list Running) :
  (List.length (rebalancing cs) <= List.length cs)%nat.
Proof.
  induction cs as [|c rest IH]; cbn; [lia|]. destruct c; cbn; lia.
Qed.

(** C5, as amended.  In every state the bot can reach from [start()]: at
    most one invocation of [runCheckCycle] is past the latch, so at most one
    [rebalance] is executing; while one executes, the single stored
    descriptor is its own; and a trigger that arrives while a cycle is in
    progress observes the skipping outcome and changes nothing.  (A
    descriptor left behind by a failed rebalance is not consulted: the next
    rebalance overwrites it.) *)
Theorem single_flight (events : list Event) :
  (List.length (cycles (run cfg started events)) <= 1)%nat /\
  (List.length (rebalancing (cycles (run cfg started events))) <= 1)%nat /\
  (forall position rest,
      In (InRebalance position rest) (cycles (run cfg started events)) ->
      exists d, pendingRebalance (run cfg started events) = Some d /\
                d_tokenId d = Monitor.r_tokenId position) /\
  (cycles (run cfg started events) <> [] ->
   isCheckInProgress (run cfg started events) = true) /\
  (isRunning (run cfg started events) = true ->
   isCheckInProgress (run cfg started events) = true ->
   step cfg (run cfg started events) Fire = (run cfg started events, Skipping)).
Proof.
  destruct (run_singleFlight events started started_singleFlight) as (Hlen & Hlatch & Hown).
  split; [exact Hlen|]. split.
  { pose proof (rebalancing_bound (cycles (run cfg started events))). lia. }
  split; [exact Hown|]. split; [exact Hlatch|].
  intros Hrun Hon. unfold step. rewrite Hrun, Hon. reflexivity.
Qed.

End OrchestratorFacts.

(** C5, as the specification states it, fails: after a rebalance that failed
    while withdrawing, its descriptor is still stored, no rebalance is
    executing, and the loop goes on to create the descriptor of the next
    candidate. *)
Lemma descriptor_overwritten :
  Orchestrator.pendingRebalance Scenario.afterFailedRebalance
  = Some {| d_tokenId := "1"; d_tickLower := -196398; d_tickUpper := -196242;
            stage := withdrawing |} /\
  Orchestrator.rebalancing (Orchestrator.cycles Scenario.afterFailedRebalance) = [] /\
  snd (Orchestrator.step Scenario.cfg0 Scenario.afterFailedRebalance (Orchestrator.Begin 0))
  = Orchestrator.Created
      {| d_tokenId := "2"; d_tickLower := -196398; d_tickUpper := -196242;
         stage := withdrawing |} /\
  ~ Orchestrator.descriptorIsLock Scenario.cfg0.
Proof.
  assert (H1 : Orchestrator.pendingRebalance Scenario.afterFailedRebalance
               = Some {| d_tokenId := "1"; d_tickLower := -196398;
                         d_tickUpper := -196242; stage := withdrawing |})
    by (vm_compute; reflexivity).
  assert (H3 : snd (Orchestrator.step Scenario.cfg0 Scenario.afterFailedRebalance
                      (Orchestrator.Begin 0))
               = Orchestrator.Created
                   {| d_tokenId := "2"; d_tickLower := -196398;
                      d_tickUpper := -196242; stage := withdrawing |})
    by (vm_compute; reflexivity).
  split; [exact H1|]. split; [vm_compute; reflexivity|]. split; [exact H3|].
  intros Hlock.
  specialize (Hlock [Orchestrator.Fire; Orchestrator.Scanned 0 Scenario.results0;
                     Orchestrator.Begin 0; Orchestrator.StageDone 0 false]
                    O _ H3).
  fold Scenario.afterFailedRebalance in Hlock. rewrite H1 in Hlock. discriminate Hlock.
Qed.

Lemma single_flight_witness :
  Orchestrator.step Scenario.cfg0
    (Orchestrator.run Scenario.cfg0 Orchestrator.started
       [Orchestrator.Fire; Orchestrator.Scanned 0 Scenario.results0; Orchestrator.Begin 0])
    Orchestrator.Fire
  = (Orchestrator.run Scenario.cfg0 Orchestrator.started
       [Orchestrator.Fire; Orchestrator.Scanned 0 Scenario.results0; Orchestrator.Begin 0],
     Orchestrator.Skipping).
Proof.
  apply (single_flight Scenario.cfg0
           [Orchestrator.Fire; Orchestrator.Scanned 0 Scenario.results0; Orchestrator.Begin 0]);
    reflexivity.
Defined.

(** * Further properties *)

(** ** The pool locator *)

Section PoolLocatorFacts.
Import PoolLocator.
Variable getPool : address -> address -> address -> Z -> Outcome address.

Lemma tryFeeTiers_firstPool (factoryAddress token0 token1 : address) (fees : list Z) :
  tryFeeTiers getPool factoryAddress token0 token1 fees
  = firstPool (map (fun fee => getPool factoryAddress token0 token1 fee) fees).
Proof.
  induction fees as [|fee rest IH]; cbn [tryFeeTiers map firstPool]; [reflexivity|].
  destruct (getPool factoryAddress token0 token1 fee) as [pool|e]; [|exact IH].
  destruct (negb (String.eqb pool ZeroAddress)); [reflexivity | exact IH].
Qed.

Lemma firstPool_app (l1 l2 : list (Outcome address)) :
  firstPool (l1 ++ l2)%list
  = match firstPool l1 with Some p => Some p | None => firstPool l2 end.
Proof.
  induction l1 as [|[pool|e] rest IH]; cbn [firstPool app]; [reflexivity| |exact IH].
  destruct (negb (String.eqb pool ZeroAddress)); [reflexivity | exact IH].
Qed.

Lemma tryFactories_firstPool (fs : list address) (token0 token1 : address) :
  tryFactories getPool fs token0 token1
  = firstPool (map (fun ff => getPool (fst ff) token0 token1 (snd ff))
                   (list_prod fs feeTiers)).
Proof.
  induction fs as [|f rest IH]; [reflexivity|].
  cbn [tryFactories list_prod]. rewrite map_app, firstPool_app, map_map.
  cbn [fst snd]. rewrite <- tryFeeTiers_firstPool, IH. reflexivity.
Qed.

Lemma firstPool_some (answers : list (Outcome address)) (pool : address) :
  firstPool answers = Some pool ->
  pool <> ZeroAddress /\ In (Ok pool) answers.
Proof.
  induction answers as [|[p|e] rest IH]; cbn [firstPool]; intros H.
  - discriminate H.
  - destruct (String.eqb p ZeroAddress) eqn:E; cbn [negb] in H.
    + destruct (IH H) as [Hnz Hin]. split; [exact Hnz | right; exact Hin].
    + injection H as <-. apply String.eqb_neq in E. split; [exact E | left; reflexivity].
  - destruct (IH H) as [Hnz Hin]. split; [exact Hnz | right; exact Hin].
Qed.

Lemma firstPool_none (answers : list (Outcome address)) :
  firstPool answers = None <->
  forall pool, In (Ok pool) answers -> pool = ZeroAddress.
Proof.
  induction answers as [|[p|e] rest IH]; cbn [firstPool].
  - split; [intros _ pool [] | reflexivity].
  - destruct (String.eqb p ZeroAddress) eqn:E; cbn [negb].
    + apply String.eqb_eq in E. rewrite IH. split.
      * intros H pool [Hin|Hin]; [injection Hin as <-; exact E | apply H; exact Hin].
      * intros H pool Hin. apply H. right. exact Hin.
    + apply String.eqb_neq in E. split; [discriminate|].
      intros H. exfalso. apply E. apply H. left. reflexivity.
  - rewrite IH. split.
    + intros H pool [Hin|Hin]; [discriminate Hin | apply H; exact Hin].
    + intros H pool Hin. apply H. right. exact Hin.
Qed.

(** X1.  [findPool] is a first-match search: it asks the three factories in
    their listed order, each with the eight fee tiers in their listed order,
    and returns the first answer that is not the zero address; a lookup that
    throws is passed over.  So it never returns the zero address, and it
    returns [null] exactly when no lookup gives another address. *)
Theorem findPool_first_match (configFactory token0 token1 : address) :
  findPool getPool configFactory token0 token1
  = firstPool (lookups getPool configFactory token0 token1) /\
  (forall pool,
      findPool getPool configFactory token0 token1 = Some pool ->
      pool <> ZeroAddress /\
      exists factoryAddress fee,
        In factoryAddress (factories configFactory) /\ In fee feeTiers /\
        getPool factoryAddress token0 token1 fee = Ok pool) /\
  (findPool getPool configFactory token0 token1 = None <->
   forall factoryAddress fee pool,
     In factoryAddress (factories configFactory) -> In fee feeTiers ->
     getPool factoryAddress token0 token1 fee = Ok pool -> pool = ZeroAddress).
Proof.
  assert (E : findPool getPool configFactory token0 token1
              = firstPool (lookups getPool configFactory token0 token1))
    by apply tryFactories_firstPool.
  split; [exact E|]. rewrite E. unfold lookups. split.
  - intros pool H. apply firstPool_some in H. destruct H as [Hnz Hin].
    split; [exact Hnz|]. apply in_map_iff in Hin.
    destruct Hin as ([f fee] & Hq & Hin). apply in_prod_iff in Hin.
    exists f, fee. cbn [fst snd] in Hq. tauto.
  - rewrite firstPool_none. split.
    + intros H f fee pool Hf Hfee Hq. apply H. apply in_map_iff.
      exists (f, fee). split; [exact Hq | apply in_prod_iff; tauto].
    + intros H pool Hin. apply in_map_iff in Hin.
      destruct Hin as ([f fee] & Hq & Hin). apply in_prod_iff in Hin.
      apply (H f fee pool); tauto.
Qed.

End PoolLocatorFacts.

(** ** More on the monitor *)

Section MonitorMoreFacts.
Import Monitor.

(** X2.  [checkAllPositions] skips a position in exactly four cases: no pool
    is known for it (neither from the position nor from [findPool]), the
    pool's metadata cannot be read, or one of the two token lookups throws.
    An unreadable current tick is not among them. *)
Theorem checkPosition_skipped_iff (chain : Chain) (position : Position) :
  checkPosition chain position = None <->
  match (match poolAddress position with
         | Some a => Some a
         | None => findPool chain (token0 position) (token1 position)
         end) with
  | None => True
  | Some pool =>
      (exists e, getPool chain pool = Throw e) \/
      (exists e, getToken chain (token0 position) = Throw e) \/
      (exists e, getToken chain (token1 position) = Throw e)
  end.
Proof.
  unfold checkPosition.
  destruct (match poolAddress position with
            | Some a => Some a
            | None => findPool chain (token0 position) (token1 position)
            end) as [pool|]; [|tauto].
  destruct (getPool chain pool) as [info|e].
  - destruct (getToken chain (token0 position)) as [s0|e0].
    + destruct (getToken chain (token1 position)) as [s1|e1].
      * split; [discriminate|].
        intros [[e H]|[[e H]|[e H]]]; discriminate H.
      * split; [intros _; right; right; eexists; reflexivity | reflexivity].
    + split; [intros _; right; left; eexists; reflexivity | reflexivity].
  - split; [intros _; left; eexists; reflexivity | reflexivity].
Qed.

Lemma checkAllPositions_In (chain : Chain) (positions : list Position) (r : Result) :
  In r (checkAllPositions chain positions) <->
  exists position, In position positions /\ checkPosition chain position = Some r.
Proof.
  induction positions as [|p rest IH]; cbn [checkAllPositions].
  - split; [intros [] | intros (? & [] & _)].
  - destruct (checkPosition chain p) as [r'|] eqn:E.
    + split.
      * intros [<-|Hin]; [exists p; split; [left; reflexivity | exact E]|].
        apply IH in Hin. destruct Hin as (q & Hq & Hc). exists q. split; [right|]; assumption.
      * intros (q & [<-|Hq] & Hc).
        -- rewrite E in Hc. injection Hc as <-. left. reflexivity.
        -- right. apply IH. exists q. split; assumption.
    + rewrite IH. split.
      * intros (q & Hq & Hc). exists q. split; [right|]; assumption.
      * intros (q & [<-|Hq] & Hc); [rewrite E in Hc; discriminate Hc|].
        exists q. split; assumption.
Qed.

Lemma checkPosition_status (chain : Chain) (position : Position) (r : Result) :
  checkPosition chain position = Some r ->
  r_tokenId r = tokenId position /\
  r_isStaked r = isStaked position /\
  r_gaugeAddress r = gaugeAddress position /\
  status r = checkPositionStatus position (currentTick (status r)).
Proof.
  unfold checkPosition.
  destruct (match poolAddress position with
            | Some a => Some a
            | None => findPool chain (token0 position) (token1 position)
            end) as [pool|]; [|discriminate].
  destruct (getPool chain pool) as [info|e]; [|discriminate].
  destruct (getToken chain (token0 position)) as [s0|e0]; [|discriminate].
  destruct (getToken chain (token1 position)) as [s1|e1]; [|discriminate].
  intros H. injection H as <-. cbn. repeat split; reflexivity.
Qed.



Lemma gtb_false_le (a b : Z) : (a >? b) = false <-> a <= b.
Proof. rewrite Z.gtb_ltb, Z.ltb_ge. tauto. Qed.


Lemma rangeWidth_pos_Q (spacing : Z) : 0 < spacing -> (0 < inject_Z spacing)%Q.
Proof. intros H. change 0%Q with (inject_Z 0). rewrite <- Zlt_Qlt. exact H. Qed.




Lemma ceil_le_floor_succ (x : Q) : Qfloor x <= Qceiling x <= Qfloor x + 1.
Proof.
  pose proof (Qfloor_le x) as H1. pose proof (Qle_ceiling x) as H2.
  pose proof (Qlt_floor x) as H3. pose proof (Qceiling_lt x) as H4.
  split.
  - rewrite Zle_Qle. lra.
  - assert (H : (inject_Z (Qceiling x - 1) < inject_Z (Qfloor x + 1))%Q) by lra.
    rewrite <- Zlt_Qlt in H. lia.
Qed.

Lemma rangeWidth_zero (spacing : Z) (m : Q) : 30 < spacing -> (rangeWidth spacing m == 0)%Q.
Proof.
  intros Hs. unfold rangeWidth.
  assert (Hq : (0 < inject_Z spacing)%Q) by (apply rangeWidth_pos_Q; lia).
  assert (Hf : Qfloor (30 / inject_Z spacing) = 0).
  { assert (H0 : (0 <= 30 / inject_Z spacing)%Q).
    { apply Qle_shift_div_l; [exact Hq|]. rewrite Qmult_0_l. discriminate. }
    assert (H1 : (30 / inject_Z spacing < 1)%Q).
    { apply Qlt_shift_div_r; [exact Hq|]. rewrite Qmult_1_l.
      change 30%Q with (inject_Z 30). rewrite <- Zlt_Qlt. exact Hs. }
    pose proof (Qfloor_le (30 / inject_Z spacing)) as Ha.
    pose proof (Qlt_floor (30 / inject_Z spacing)) as Hb.
    assert (Hc : (inject_Z (Qfloor (30 / inject_Z spacing)) < inject_Z 1)%Q)
      by (change (inject_Z 1) with 1%Q; lra).
    assert (Hd : (inject_Z (-1) < inject_Z (Qfloor (30 / inject_Z spacing)))%Q).
    { rewrite inject_Z_plus in Hb. change (inject_Z 1) with 1%Q in Hb.
      change (inject_Z (-1)) with (-1)%Q. lra. }
    rewrite <- Zlt_Qlt in Hc, Hd. lia. }
  rewrite Hf. change (inject_Z 0) with 0%Q. ring.
Qed.

(** X5.  With a tick spacing above 30 the factor [floor(30 / tickSpacing)]
    is 0, so the multiplier has no effect on either range computation: the
    rebalance range is the grid cell around the current tick, at most one
    spacing wide and empty when the tick is on the grid, and the range of a
    first position from the wallet is always empty. *)
Theorem ranges_for_wide_spacing (cfg : Config) (tick spacing : Z) (m : Q) :
  30 < spacing ->
  newTickLower (calculateNewRange tick spacing m) = Qfloor (inject_Z tick / inject_Z spacing) * spacing /\
  newTickUpper (calculateNewRange tick spacing m) = Qceiling (inject_Z tick / inject_Z spacing) * spacing /\
  newTickUpper (calculateNewRange tick spacing m) - newTickLower (calculateNewRange tick spacing m)
  <= spacing /\
  (tick mod spacing = 0 ->
   newTickLower (calculateNewRange tick spacing m) = tick /\
   newTickUpper (calculateNewRange tick spacing m) = tick) /\
  newTickLower (Cycle.walletRange cfg tick spacing)
  = newTickUpper (Cycle.walletRange cfg tick spacing).
Proof.
  intros Hs.
  pose proof (rangeWidth_zero spacing m Hs) as Hw.
  pose proof (rangeWidth_zero spacing (rangeMultiplier cfg) Hs) as Hw'.
  assert (Elo : newTickLower (calculateNewRange tick spacing m)
                = Qfloor (inject_Z tick / inject_Z spacing) * spacing).
  { unfold calculateNewRange. cbn [newTickLower]. f_equal.
    apply Qfloor_comp. rewrite Hw. unfold Qminus. rewrite Qplus_0_r. reflexivity. }
  assert (Ehi : newTickUpper (calculateNewRange tick spacing m)
                = Qceiling (inject_Z tick / inject_Z spacing) * spacing).
  { unfold calculateNewRange. cbn [newTickUpper]. f_equal.
    apply Qceiling_comp. rewrite Hw. rewrite Qplus_0_r. reflexivity. }
  split; [exact Elo|]. split; [exact Ehi|]. rewrite Elo, Ehi. split; [|split].
  - pose proof (ceil_le_floor_succ (inject_Z tick / inject_Z spacing)). nia.
  - intros Hmod. apply Z.mod_divide in Hmod; [|lia]. destruct Hmod as [k Hk].
    assert (Hq : (inject_Z tick / inject_Z spacing == inject_Z k)%Q).
    { rewrite Hk, inject_Z_mult. apply Qdiv_mult_l.
      intro E. pose proof (rangeWidth_pos_Q spacing ltac:(lia)) as Hp.
      rewrite E in Hp. discriminate. }
    rewrite (Qfloor_comp _ _ Hq), (Qceiling_comp _ _ Hq), Qfloor_Z, Qceiling_Z.
    split; lia.
  - unfold Cycle.walletRange. cbn [newTickLower newTickUpper]. f_equal.
    apply Qfloor_comp. fold (rangeWidth spacing (rangeMultiplier cfg)).
    rewrite Hw'. unfold Qminus. rewrite !Qplus_0_r. reflexivity.
Qed.


Lemma notInRange_iff (position : Position) (tick : Z) :
  isInRange (checkPositionStatus position tick) = false <->
  tick < tickLower position \/ tickUpper position < tick.
Proof.
  pose proof (isInRange_closed position tick) as H.
  destruct (isInRange (checkPositionStatus position tick)).
  - split; [discriminate|]. intros Hout. assert (Hin : tickLower position <= tick <= tickUpper position) by (apply H; reflexivity). lia.
  - split; [|reflexivity]. intros _.
    destruct (Z_lt_le_dec tick (tickLower position)) as [?|?]; [left; assumption|].
    destruct (Z_lt_le_dec (tickUpper position) tick) as [?|?]; [right; assumption|].
    assert (Hc : false = true) by (apply H; lia). discriminate Hc.
Qed.

(** X7.  [getOutOfRangePositions] returns exactly those results of
    [checkAllPositions] whose current tick lies outside the closed interval
    [tickLower, tickUpper] and whose reported percentage reaches the
    threshold; in particular no position it returns has its current tick
    within its range. *)
Theorem getOutOfRangePositions_spec
    (chain : Chain) (positions : list Position) (threshold : Q) (r : Result) :
  In r (MonitorQueries.getOutOfRangePositions chain positions threshold) <->
  In r (checkAllPositions chain positions) /\
  (currentTick (status r) < st_tickLower (status r) \/
   st_tickUpper (status r) < currentTick (status r)) /\
  (threshold <= percentOutOfRange (status r))%Q.
Proof.
  unfold MonitorQueries.getOutOfRangePositions. rewrite filter_In.
  split.
  - intros [Hin Hf]. apply andb_true_iff in Hf. destruct Hf as [Hout Hth].
    apply negb_true_iff in Hout. apply Qle_bool_iff in Hth.
    split; [exact Hin|]. split; [|exact Hth].
    apply checkAllPositions_In in Hin. destruct Hin as (position & _ & Hc).
    apply checkPosition_status in Hc. destruct Hc as (_ & _ & _ & Hst).
    rewrite Hst in Hout. apply notInRange_iff in Hout.
    rewrite Hst. cbn [st_tickLower st_tickUpper currentTick]. exact Hout.
  - intros (Hin & Hout & Hth). split; [exact Hin|].
    apply andb_true_iff. split; [|apply Qle_bool_iff; exact Hth].
    apply negb_true_iff.
    pose proof Hin as Hin'. apply checkAllPositions_In in Hin'.
    destruct Hin' as (position & _ & Hc).
    apply checkPosition_status in Hc. destruct Hc as (_ & _ & _ & Hst).
    rewrite Hst. apply notInRange_iff.
    rewrite Hst in Hout. cbn [st_tickLower st_tickUpper currentTick] in Hout. exact Hout.
Qed.

(** X8.  In one cycle no position is both auto-staked and rebalanced: the
    auto-stake list holds in-range, unstaked positions with a gauge, the
    rebalance list holds out-of-range positions whose reported percentage
    reaches the threshold, and with AUTO_REBALANCE off the rebalance loop
    gets no position at all. *)
Theorem stake_and_rebalance_disjoint (cfg : Config) (positions : list Result) :
  (forall p, In p (Cycle.unstakedInRangePositions positions) ->
             In p (Orchestrator.toRebalance cfg positions) -> False) /\
  (forall p, In p (Orchestrator.toRebalance cfg positions) ->
             In p positions /\ autoRebalance cfg = true /\
             isInRange (status p) = false /\
             (rebalanceThreshold cfg <= percentOutOfRange (status p))%Q) /\
  (forall p, In p (Cycle.unstakedInRangePositions positions) ->
             In p positions /\ isInRange (status p) = true /\
             r_isStaked p = false /\ r_gaugeAddress p <> None) /\
  (autoRebalance cfg = false -> Orchestrator.toRebalance cfg positions = []).
Proof.
  assert (Hreb : forall p, In p (Orchestrator.toRebalance cfg positions) ->
             In p positions /\ autoRebalance cfg = true /\
             isInRange (status p) = false /\
             (rebalanceThreshold cfg <= percentOutOfRange (status p))%Q).
  { intros p. unfold Orchestrator.toRebalance, Orchestrator.rebalanceCandidates.
    destruct (autoRebalance cfg); [|intros []].
    rewrite !filter_In. intros [[Hin Hout] Hth].
    apply negb_true_iff in Hout. apply Qle_bool_iff in Hth. tauto. }
  assert (Hst : forall p, In p (Cycle.unstakedInRangePositions positions) ->
             In p positions /\ isInRange (status p) = true /\
             r_isStaked p = false /\ r_gaugeAddress p <> None).
  { intros p. unfold Cycle.unstakedInRangePositions. rewrite filter_In.
    intros [Hin Hf]. apply andb_true_iff in Hf. destruct Hf as [Hf Hg].
    apply andb_true_iff in Hf. destruct Hf as [Hr Hs]. apply negb_true_iff in Hs.
    unfold Orchestrator.hasGauge in Hg.
    repeat split; try assumption. destruct (r_gaugeAddress p); [discriminate | discriminate Hg]. }
  split; [|split; [exact Hreb | split; [exact Hst|]]].
  - intros p H1 H2. apply Hst in H1. apply Hreb in H2.
    destruct H1 as (_ & Ha & _). destruct H2 as (_ & _ & Hb & _). congruence.
  - intros Hoff. unfold Orchestrator.toRebalance. rewrite Hoff. reflexivity.
Qed.

End MonitorMoreFacts.

(** ** Slippage bounds *)

(** X9.  For a slippage between 0 and 10000 basis points and a non-negative
    quote, [amountOutMinimum] lies between 0 and the quote, loses less than
    one unit to the integer division, is the quote itself at 0 bps, and
    grows with the quote. *)
Theorem amountOutMinimum_bounds (cfg : Config) (expectedOut expectedOut' : Z) :
  0 <= slippageBps cfg <= 10000 ->
  0 <= expectedOut <= expectedOut' ->
  0 <= Direct.amountOutMinimum cfg expectedOut <= expectedOut /\
  expectedOut * (10000 - slippageBps cfg) - 10000
  < 10000 * Direct.amountOutMinimum cfg expectedOut
  <= expectedOut * (10000 - slippageBps cfg) /\
  (slippageBps cfg = 0 -> Direct.amountOutMinimum cfg expectedOut = expectedOut) /\
  Direct.amountOutMinimum cfg expectedOut <= Direct.amountOutMinimum cfg expectedOut'.
Proof.
  intros Hbps Hout. unfold Direct.amountOutMinimum.
  assert (Hn : 0 <= expectedOut * (10000 - slippageBps cfg)) by nia.
  assert (Hn' : 0 <= expectedOut' * (10000 - slippageBps cfg)) by nia.
  rewrite !Z.quot_div_nonneg by lia.
  pose proof (Z.mul_div_le (expectedOut * (10000 - slippageBps cfg)) 10000 ltac:(lia)) as H1.
  pose proof (Z.mul_succ_div_gt (expectedOut * (10000 - slippageBps cfg)) 10000 ltac:(lia)) as H2.
  repeat split.
  - apply Z.div_pos; lia.
  - apply Z.div_le_upper_bound; [lia|]. nia.
  - lia.
  - lia.
  - intros ->. rewrite Z.sub_0_r. apply Z.div_mul. lia.
  - apply Z.div_le_mono; [lia|]. nia.
Qed.

Lemma amountOutMinimum_bounds_witness :
  Direct.amountOutMinimum Scenario.cfg0 1000 = 970 /\
  0 <= Direct.amountOutMinimum Scenario.cfg0 1000 <= 1000.
Proof.
  split; [reflexivity|].
  apply (amountOutMinimum_bounds Scenario.cfg0 1000 1000); cbn; lia.
Defined.

(** ** More on the ratio math *)

Section RatioMoreFacts.
Import Num Ratio.
Local Open Scope R_scope.









End RatioMoreFacts.

(** ** More on the signer and the wallet *)

Section SignerMoreFacts.
Variable cfg : Config.
Variable env : Web3.Env.

Ltac world_fields :=
  cbn [trace noncePromise nonceDelta assignedNonces pendingRebalance fst snd].

Lemma calls_other (c c' : Call) (t : list Call) :
  sameCall c' c = false -> calls c (c' :: t) = calls c t.
Proof. intros H. cbn [calls]. rewrite H. reflexivity. Qed.

Lemma nonce_assigned (c : Call) (submit : nat -> Z -> Outcome string) (w : World) :
  assignedNonces (snd (Web3.nonceManager_sendTransaction env c submit w))
  = Signer.nextNonce env w :: assignedNonces w.
Proof.
  unfold Web3.nonceManager_sendTransaction, Web3.nonceManager_getNonce,
         Web3.nonceManager_increment, Web3.assign, Signer.nextNonce, bind, await, record.
  destruct (noncePromise w); reflexivity.
Qed.

(** X13.  Every submission through the nonce manager takes the next nonce
    and moves the counter on by one, whether the submission is accepted or
    throws: nonces handed out between two resets are consecutive, and a
    failed submission still uses one up.  After [reset()] the next nonce is
    the account nonce the chain reports. *)
Theorem nonce_consecutive (c : Call) (submit : nat -> Z -> Outcome string) (w : World) :
  assignedNonces (snd (Web3.nonceManager_sendTransaction env c submit w))
  = Signer.nextNonce env w :: assignedNonces w /\
  Signer.nextNonce env (snd (Web3.nonceManager_sendTransaction env c submit w))
  = Signer.nextNonce env w + 1 /\
  Signer.nextNonce env (snd (Web3.nonceManager_reset w))
  = Web3.accountNonce env (calls AccountNonce (trace w)).
Proof.
  split; [|split].
  - apply nonce_assigned.
  - unfold Web3.nonceManager_sendTransaction, Web3.nonceManager_getNonce,
           Web3.nonceManager_increment, Web3.assign, Signer.nextNonce, bind, await, record.
    destruct (noncePromise w) eqn:Hbase; cbn; rewrite ?Hbase; ring.
  - unfold Web3.nonceManager_reset, Signer.nextNonce. world_fields.
    rewrite calls_other by reflexivity. ring.
Qed.

(** X14.  With the EIP-1559 strategy the fee fields [sendTransaction] puts
    on a transaction always satisfy [maxPriorityFeePerGas <= maxFeePerGas]:
    against a node that refuses the opposite, it behaves exactly as against
    one that does not check, and so does the swap's submit block. *)
Theorem sendTransaction_fees_valid (w : World) :
  String.eqb (gasStrategy cfg) "legacy" = false ->
  Web3.sendTransaction cfg (Signer.strictWallet env) w = Web3.sendTransaction cfg env w /\
  submitWithNonceRetry cfg (Signer.strictWallet env) w = submitWithNonceRetry cfg env w.
Proof.
  intros Hstrategy.
  assert (Hsend : forall w0, Web3.sendTransaction cfg (Signer.strictWallet env) w0
                             = Web3.sendTransaction cfg env w0).
  { intros w0.
    unfold Web3.sendTransaction, Web3.getGasPrice, Web3.nonceManager_sendTransaction,
           Web3.nonceManager_getNonce, Web3.nonceManager_increment, Web3.assign,
           bind, await, record, ret.
    rewrite Hstrategy. world_fields. cbn [Signer.strictWallet Web3.blockBaseFee
      Web3.estimateGas Web3.accountNonce Web3.walletSend Web3.txWait].
    destruct (Web3.blockBaseFee env _) as [baseFee|e]; [|reflexivity].
    destruct (Web3.estimateGas env _) as [gas|e]; [|reflexivity].
    world_fields.
    assert (Hok : (Web3.maxPriorityFeePerGas (Web3.eip1559 cfg baseFee)
                   >? Web3.maxFeePerGas (Web3.eip1559 cfg baseFee)) = false)
      by (apply gtb_false_le; apply eip1559_ordered).
    destruct (noncePromise w0); world_fields; cbn [Web3.tx_maxPriorityFeePerGas
      Web3.tx_maxFeePerGas]; rewrite Hok; reflexivity. }
  split; [apply Hsend|].
  unfold submitWithNonceRetry, tryCatch. rewrite Hsend.
  destruct (Web3.sendTransaction cfg env w) as [[r|e] w1]; [reflexivity|].
  destruct (negb (isNonceExpired e)); [reflexivity|].
  unfold bind. cbn [Web3.nonceManager_reset fst snd]. apply Hsend.
Qed.

(** X15.  [approveToken] sends an approval only when the allowance is short.
    If the allowance read always covers the amount, no approval is
    submitted and the nonce manager is left as it was; if the allowance
    read is below the amount, exactly one nonce, the next one, is taken for
    the approval. *)
Theorem approveToken_only_when_short (amount : Z) (w : World) :
  ((forall n a, Web3.allowance env n = Ok a -> amount <= a) ->
   calls TokenApprove (trace (snd (Web3.approveToken env amount w)))
   = calls TokenApprove (trace w) /\
   assignedNonces (snd (Web3.approveToken env amount w)) = assignedNonces w /\
   nonceDelta (snd (Web3.approveToken env amount w)) = nonceDelta w /\
   noncePromise (snd (Web3.approveToken env amount w)) = noncePromise w /\
   ((exists symbol, Web3.tokenInfo env (calls TokenInfo (trace w)) = Ok symbol) ->
    (exists a, Web3.allowance env (calls Allowance (trace w)) = Ok a) ->
    fst (Web3.approveToken env amount w) = Ok tt)) /\
  (forall symbol a,
      Web3.tokenInfo env (calls TokenInfo (trace w)) = Ok symbol ->
      Web3.allowance env (calls Allowance (trace w)) = Ok a ->
      a < amount ->
      assignedNonces (snd (Web3.approveToken env amount w))
      = Signer.nextNonce env w :: assignedNonces w /\
      calls TokenApprove (trace (snd (Web3.approveToken env amount w)))
      = S (calls TokenApprove (trace w))).
Proof.
  split.
  - intros Hcover.
    unfold Web3.approveToken, bind, await, record, ret. world_fields.
    destruct (Web3.tokenInfo env _) as [symbol|e] eqn:Hinfo; world_fields.
    2:{ repeat split; try reflexivity.
        intros [s Hs] _. congruence. }
    rewrite (calls_other Allowance TokenInfo) by reflexivity.
    destruct (Web3.allowance env _) as [a|e] eqn:Hallow; world_fields.
    2:{ repeat split; try reflexivity.
        intros _ [a Ha]. congruence. }
    assert (E : (a <? amount) = false) by (apply Z.ltb_ge; eapply Hcover; exact Hallow).
    rewrite E. world_fields. repeat split; reflexivity.
  - intros symbol a Hinfo Hallow Hshort.
    assert (E : (a <? amount) = true) by (apply Z.ltb_lt; exact Hshort).
    unfold Web3.approveToken, bind, await, record, throw, ret. world_fields.
    rewrite Hinfo. rewrite (calls_other Allowance TokenInfo) by reflexivity.
    rewrite Hallow, E.
    set (w1 := {| trace := Allowance :: TokenInfo :: trace w;
                  noncePromise := noncePromise w; nonceDelta := nonceDelta w;
                  assignedNonces := assignedNonces w;
                  pendingRebalance := pendingRebalance w |}).
    pose proof (nonce_assigned TokenApprove (Web3.tokenApprove env) w1) as Hn.
    assert (Hnext : Signer.nextNonce env w1 = Signer.nextNonce env w).
    { unfold Signer.nextNonce, w1. world_fields.
      rewrite !(calls_other AccountNonce) by reflexivity. reflexivity. }
    assert (Hc : calls TokenApprove
                   (trace (snd (Web3.nonceManager_sendTransaction env TokenApprove
                                  (Web3.tokenApprove env) w1)))
                 = S (calls TokenApprove (trace w))).
    { unfold Web3.nonceManager_sendTransaction, Web3.nonceManager_getNonce,
             Web3.nonceManager_increment, Web3.assign, bind, await, record, w1.
      destruct (noncePromise w); world_fields;
        rewrite ?(calls_other TokenApprove AccountNonce) by reflexivity;
        cbn [calls]; unfold sameCall; cbn; reflexivity. }
    destruct (Web3.nonceManager_sendTransaction env TokenApprove (Web3.tokenApprove env) w1)
      as [[tx|e] w2]; cbn [fst snd] in *.
    + destruct (Web3.approveWait env _) as [[r|]|e]; world_fields;
        rewrite Hn, Hnext; (split; [reflexivity|]);
        rewrite (calls_other TokenApprove ApproveWait) by reflexivity; exact Hc.
    + rewrite Hn, Hnext. split; [reflexivity | exact Hc].
Qed.

End SignerMoreFacts.

(** ** More on the two swap variants *)

Section SwapMoreFacts.
Variable cfg : Config.
Variable env : Web3.Env.

Ltac world_fields :=
  cbn [trace noncePromise nonceDelta assignedNonces pendingRebalance fst snd].

Lemma existsb_none {A} (f : A -> bool) (l : list A) :
  (forall x, In x l -> f x = false) -> existsb f l = false.
Proof.
  intros H. destruct (existsb f l) eqn:E; [|reflexivity].
  apply existsb_exists in E. destruct E as [x [Hin Hx]].
  rewrite (H x Hin) in Hx. discriminate Hx.
Qed.

(** X16.  A swap built for a router other than the one that was quoted, or
    for a router that is not on a non-empty allowlist (compared without
    regard to case), is abandoned right after the two aggregator requests:
    the attempt throws, and nothing is approved, signed or submitted. *)
Theorem kyber_router_rejected (api : Kyber.Api) (amountIn : Z) (w : World)
    (route : Kyber.RouteData) (build : Kyber.BuiltSwap) :
  Kyber.getKyberRoute api (calls KyberRoute (trace w)) = Ok route ->
  Kyber.buildKyberRoute api (calls KyberBuild (trace w)) = Ok build ->
  (toLowerCase (Kyber.route_routerAddress route) <> toLowerCase (Kyber.routerAddress build) \/
   (allowedRouters cfg <> [] /\
    forall allowed, In allowed (allowedRouters cfg) ->
                    toLowerCase allowed <> toLowerCase (Kyber.routerAddress build))) ->
  exists e,
    Kyber.runSwapAttempt cfg env api amountIn w
    = (Throw e,
       {| trace := KyberBuild :: KyberRoute :: trace w;
          noncePromise := noncePromise w; nonceDelta := nonceDelta w;
          assignedNonces := assignedNonces w;
          pendingRebalance := pendingRebalance w |}).
Proof.
  intros Hroute Hbuild Hbad.
  unfold Kyber.runSwapAttempt. unfold bind at 1. unfold await at 1. unfold record.
  world_fields. rewrite Hroute.
  unfold bind at 1. unfold await at 1. unfold record. world_fields.
  rewrite (calls_other KyberBuild KyberRoute) by reflexivity. rewrite Hbuild.
  destruct (String.eqb (toLowerCase (Kyber.route_routerAddress route))
                       (toLowerCase (Kyber.routerAddress build))) eqn:Hsame;
    cbn [negb].
  2:{ eexists. reflexivity. }
  apply String.eqb_eq in Hsame.
  destruct Hbad as [Hdiff | [Hnonempty Hnone]]; [contradiction|].
  unfold bind at 1. unfold Kyber.validateKyberRouter.
  destruct (allowedRouters cfg) as [|first others] eqn:Hlist; [congruence|].
  cbn [List.length Nat.eqb].
  rewrite existsb_none.
  - cbn [negb]. eexists. reflexivity.
  - intros allowed Hin. apply String.eqb_neq. apply Hnone. exact Hin.
Qed.

(** X17.  [validateKyberRouter] accepts a router exactly when the allowlist
    is empty or holds the router's address up to case; it never touches the
    world. *)
Theorem validateKyberRouter_accepts (router : address) (w : World) :
  (fst (Kyber.validateKyberRouter cfg router w) = Ok tt <->
   allowedRouters cfg = [] \/
   exists allowed, In allowed (allowedRouters cfg) /\
                   toLowerCase allowed = toLowerCase router) /\
  snd (Kyber.validateKyberRouter cfg router w) = w.
Proof.
  unfold Kyber.validateKyberRouter. cbv zeta.
  destruct (allowedRouters cfg) as [|first others] eqn:Hlist.
  - cbn. split; [|reflexivity]. split; [intros _; left; reflexivity | reflexivity].
  - cbn [List.length Nat.eqb].
    match goal with
    | |- context [existsb ?f ?l] => destruct (existsb f l) eqn:Hany
    end; cbn [negb]; unfold ret, throw; cbn [fst snd]; (split; [|reflexivity]).
    + split; [|reflexivity]. intros _. right.
      apply existsb_exists in Hany. destruct Hany as [allowed [Hin Heq]].
      exists allowed. split; [exact Hin | apply String.eqb_eq; exact Heq].
    + split; [discriminate|].
      intros [Hempty | [allowed [Hin Heq]]]; [discriminate Hempty|].
      assert (Hyes : existsb (fun allowed0 => String.eqb (toLowerCase allowed0)
                                                (toLowerCase router))
                             (first :: others) = true).
      { apply existsb_exists. exists allowed. split; [exact Hin|].
        apply String.eqb_eq. exact Heq. }
      rewrite Hyes in Hany. discriminate Hany.
Qed.

Lemma atMost_await_bind {A B} (c c' : Call) (n : nat)
    (oracle : nat -> Outcome A) (k : A -> M B) :
  (forall i a, oracle i = Ok a -> atMost c n (k a)) ->
  atMost c ((if sameCall c' c then 1 else 0) + n) (bind (await c' oracle) k).
Proof.
  intros H w. unfold bind, await, record. world_fields.
  destruct (oracle (calls c' (trace w))) as [a|e] eqn:E; world_fields.
  - specialize (H _ _ E). unfold atMost in H.
    match goal with |- context [k a ?w1] => specialize (H w1) end.
    cbn [trace] in H. cbn [calls] in H. destruct (sameCall c' c); lia.
  - cbn [calls]. destruct (sameCall c' c); lia.
Qed.

Lemma approveToken_covered (c : Call) (amount : Z) :
  sameCall TokenApprove c = true ->
  (forall n a, Web3.allowance env n = Ok a -> amount <= a) ->
  atMost c 0 (Web3.approveToken env amount).
Proof.
  intros Hc Hcover. unfold Web3.approveToken.
  eapply atMost_weaken.
  - apply atMost_await_bind. intros i symbol _.
    apply atMost_await_bind. intros j a Ha.
    assert (E : (a <? amount) = false) by (apply Z.ltb_ge; eapply Hcover; exact Ha).
    rewrite E. apply atMost_ret.
  - unfold sameCall in *. destruct c; cbn in *; try discriminate; lia.
Qed.

(** X18.  The direct swap approves on demand.  When the ERC-20 allowance
    and the Permit2 allowance read during the swap both cover [amountIn],
    no ERC-20 approval and no Permit2 approval is submitted. *)
Theorem direct_swap_no_approvals (ctr : Direct.Contracts) (amountIn : Z) :
  (forall n a, Web3.allowance env n = Ok a -> amountIn <= a) ->
  (forall n a, Direct.permit2Allowance ctr n = Ok a -> amountIn <= a) ->
  atMost TokenApprove 0 (Direct.swapTokens cfg env ctr amountIn) /\
  atMost Permit2Approve 0 (Direct.swapTokens cfg env ctr amountIn).
Proof.
  intros Herc20 Hpermit2. split.
  - unfold Direct.swapTokens, Direct.swapAttempt.
    eapply atMost_weaken.
    + eapply atMost_if; [apply atMost_ret|].
      eapply atMost_tryCatch; [|intros ?; apply atMost_ret].
      eapply atMost_bind; [|intros ?; apply atMost_ret].
      eapply atMost_bind; [apply atMost_await|intros ?].
      eapply atMost_bind; [apply atMost_await|intros ?].
      eapply atMost_bind; [apply atMost_await|intros ?].
      eapply atMost_bind;
        [apply (approveToken_covered TokenApprove); [reflexivity | exact Herc20]|intros ?].
      open_ops. atMost_go.
    + vm_compute. lia.
  - unfold Direct.swapTokens, Direct.swapAttempt.
    eapply atMost_weaken.
    + eapply atMost_if; [apply atMost_ret|].
      eapply atMost_tryCatch; [|intros ?; apply atMost_ret].
      eapply atMost_bind; [|intros ?; apply atMost_ret].
      eapply atMost_bind; [apply atMost_await|intros ?].
      eapply atMost_bind; [apply atMost_await|intros ?].
      eapply atMost_bind; [apply atMost_await|intros ?].
      eapply atMost_bind; [open_ops; atMost_go|intros ?].
      apply atMost_await_bind. intros i p2Amount Hp2.
      assert (E : (p2Amount <? amountIn) = false)
        by (apply Z.ltb_ge; eapply Hpermit2; exact Hp2).
      rewrite E. open_ops. atMost_go.
    + vm_compute. lia.
Qed.

End SwapMoreFacts.

(** ** Minting the new position *)

Section MintFacts.
Import Mint.






Variable cfg : Config.
Variable env : Web3.Env.
Variable ctr : Contracts.

Ltac world_fields :=
  cbn [trace noncePromise nonceDelta assignedNonces pendingRebalance fst snd].





End MintFacts.

(** ** The gauge *)

Section GaugeFacts.
Import Gauge.
Variable env : Web3.Env.
Variable ctr : Contracts.

Ltac world_fields :=
  cbn [trace noncePromise nonceDelta assignedNonces pendingRebalance fst snd].

Ltac open_gauge :=
  unfold stakeToGauge, unstakeFromGauge, delay, Web3.nonceManager_sendTransaction,
         Web3.nonceManager_getNonce, Web3.nonceManager_increment, Web3.assign,
         Signer.nextNonce, bind, answer, await, record, ret.

(** X22.  [stakeToGauge] approves the gauge for the NFT only when it is not
    approved already, addresses compared without regard to case.  Already
    approved: the deposit is the only transaction and takes the next nonce.
    Not approved: the approval takes the next nonce and the deposit the one
    after; and if the approval is refused, [stakeToGauge] throws and the
    deposit is never submitted. *)
Theorem stakeToGauge_approval (gaugeAddress approved : address) (w : World) :
  getApproved ctr = Ok approved ->
  (toLowerCase approved = toLowerCase gaugeAddress ->
   assignedNonces (snd (stakeToGauge env ctr gaugeAddress w))
   = Signer.nextNonce env w :: assignedNonces w /\
   calls TokenApprove (trace (snd (stakeToGauge env ctr gaugeAddress w)))
   = calls TokenApprove (trace w)) /\
  (toLowerCase approved <> toLowerCase gaugeAddress ->
   (forall approveTx,
       approve ctr (calls TokenApprove (trace w)) (Signer.nextNonce env w) = Ok approveTx ->
       approveWait ctr (calls ApproveWait (trace w)) = Ok tt ->
       assignedNonces (snd (stakeToGauge env ctr gaugeAddress w))
       = Signer.nextNonce env w + 1 :: Signer.nextNonce env w :: assignedNonces w) /\
   (forall e,
       approve ctr (calls TokenApprove (trace w)) (Signer.nextNonce env w) = Throw e ->
       fst (stakeToGauge env ctr gaugeAddress w) = Throw e /\
       calls WalletSend (trace (snd (stakeToGauge env ctr gaugeAddress w)))
       = calls WalletSend (trace w) /\
       assignedNonces (snd (stakeToGauge env ctr gaugeAddress w))
       = Signer.nextNonce env w :: assignedNonces w)).
Proof.
  intros Happroved. split.
  - intros Hsame. apply String.eqb_eq in Hsame.
    open_gauge. rewrite Happroved, Hsame. cbn [negb].
    destruct (noncePromise w) as [base|] eqn:Hbase; world_fields.
    + destruct (deposit ctr _ _); world_fields;
        [destruct (depositWait ctr _); world_fields|];
        (split; [reflexivity|]);
        rewrite ?(calls_other TokenApprove TxWait) by reflexivity;
        rewrite ?(calls_other TokenApprove WalletSend) by reflexivity; reflexivity.
    + destruct (deposit ctr _ _); world_fields;
        [destruct (depositWait ctr _); world_fields|];
        (split; [reflexivity|]);
        rewrite ?(calls_other TokenApprove TxWait) by reflexivity;
        rewrite ?(calls_other TokenApprove WalletSend) by reflexivity;
        rewrite ?(calls_other TokenApprove AccountNonce) by reflexivity; reflexivity.
  - intros Hdiff. apply String.eqb_neq in Hdiff. split.
    + intros approveTx Hok Hwait. revert Hok.
      open_gauge. rewrite Happroved, Hdiff. cbn [negb].
      destruct (noncePromise w) as [base|] eqn:Hbase; world_fields; intros Hok.
      * rewrite Hok. world_fields.
        rewrite (calls_other ApproveWait TokenApprove) by reflexivity.
        rewrite Hwait. world_fields. rewrite Hbase. world_fields.
        destruct (deposit ctr _ _); world_fields;
          [destruct (depositWait ctr _); world_fields|];
          f_equal; ring.
      * rewrite (calls_other TokenApprove AccountNonce) by reflexivity.
        rewrite Hok. world_fields.
        rewrite (calls_other ApproveWait TokenApprove) by reflexivity.
        rewrite (calls_other ApproveWait AccountNonce) by reflexivity.
        rewrite Hwait. world_fields.
        destruct (deposit ctr _ _); world_fields;
          [destruct (depositWait ctr _); world_fields|];
          f_equal; ring.
    + intros e. open_gauge. rewrite Happroved, Hdiff. cbn [negb].
      destruct (noncePromise w) as [base|] eqn:Hbase; world_fields; intros Hfail.
      * rewrite Hfail. world_fields.
        rewrite (calls_other WalletSend TokenApprove) by reflexivity.
        repeat split; reflexivity.
      * rewrite (calls_other TokenApprove AccountNonce) by reflexivity.
        rewrite Hfail. world_fields.
        rewrite (calls_other WalletSend TokenApprove) by reflexivity.
        rewrite (calls_other WalletSend AccountNonce) by reflexivity.
        repeat split; reflexivity.
Qed.

End GaugeFacts.

(** ** The monitor and the ratio calculation together *)

(** X23.  [calculateOptimalRatio] and [checkPositionStatus] draw the range
    boundaries alike: for the ticks of a position and the pool's current
    tick they agree on in range and on below range, and a position the
    monitor reports out of range gets a one-sided split, all token0 below
    the range and all token1 above it (below wins for an inverted range,
    which is both). *)
Theorem ratio_agrees_with_monitor (pool : Ratio.PoolState) (position : Monitor.Position) :
  let ratio := Ratio.calculateOptimalRatio pool (Monitor.tickLower position)
                                           (Monitor.tickUpper position) in
  let status := Monitor.checkPositionStatus position (Ratio.slot0_tick pool) in
  Ratio.inRange ratio = Monitor.isInRange status /\
  Ratio.belowRange ratio = Monitor.isBelowRange status /\
  (Monitor.isBelowRange status = true ->
   Ratio.token0Ratio ratio = Num.Fin 1 /\ Ratio.token1Ratio ratio = Num.Fin 0) /\
  (Monitor.isBelowRange status = false -> Monitor.isAboveRange status = true ->
   Ratio.token0Ratio ratio = Num.Fin 0 /\ Ratio.token1Ratio ratio = Num.Fin 1).
Proof.
  unfold Ratio.calculateOptimalRatio, Monitor.checkPositionStatus. cbv zeta.
  cbn [Monitor.isInRange Monitor.isBelowRange Monitor.isAboveRange].
  destruct (Ratio.slot0_tick pool <? Monitor.tickLower position) eqn:Hbelow;
    destruct (Ratio.slot0_tick pool >? Monitor.tickUpper position) eqn:Habove;
    cbn [Ratio.inRange Ratio.belowRange Ratio.token0Ratio Ratio.token1Ratio negb andb];
    repeat split; try reflexivity; try discriminate.
Qed.

(** ** More on the check cycle *)

Section CycleMoreFacts.
Import Orchestrator CycleInvariants.
Variable cfg : Config.

Lemma step_latched (bot : Bot) (ev : Event) :
  latched bot -> latched (fst (step cfg bot ev)).
Proof.
  intros H. destruct bot as [running latch pending cs]. unfold latched in *.
  cbn [cycles isCheckInProgress] in H.
  destruct H as [[Hc Hl]|[c [Hc Hl]]]; subst cs latch;
    unfold step; cbn [isRunning]; (destruct running; cbn [negb fst];
      [|first [left; split; reflexivity | right; eexists; split; reflexivity]]);
    destruct ev as [|i positions|i|i ok|i|];
    repeat (cbn; match goal with
                 | |- context [nth_error _ ?i] => is_var i; destruct i
                 | |- context [match ?x with _ => _ end] => is_var x; destruct x
                 | |- context [afterStage ?a ?b ?c] =>
                     destruct (afterStage a b c) as [?|[|]]
                 end);
    cbn; first [left; split; reflexivity | right; eexists; split; reflexivity].
Qed.

Lemma run_latched (events : list Event) (bot : Bot) :
  latched bot -> latched (run cfg bot events).
Proof.
  revert bot. induction events as [|ev rest IH]; intros bot H; cbn [run].
  - exact H.
  - apply IH. apply step_latched. exact H.
Qed.

(** X24.  The latch [isCheckInProgress] is set exactly while a check cycle
    is running: whatever happens during a cycle, once its [finally] block
    has run the latch is free again, so a later timer tick is not skipped
    for a cycle that is over. *)
Theorem latch_iff_cycle_running (events : list Event) :
  isCheckInProgress (run cfg started events) = true <->
  cycles (run cfg started events) <> [].
Proof.
  assert (H : latched (run cfg started events)).
  { apply run_latched. left. split; reflexivity. }
  destruct H as [[Hc Hl]|[c [Hc Hl]]]; rewrite Hc, Hl.
  - split; [discriminate | intros E; contradiction E; reflexivity].
  - split; [intros _; discriminate | reflexivity].
Qed.





End CycleMoreFacts.

(** ** One rebalance, from the descriptor's store to its clearing *)

Section RebalanceFacts.
Import Rebalance.
Variable cfg : Config.
Variable env : Web3.Env.
Variable swapTokens : bool -> Z -> M (option Receipt).
Variable chain : Chain.
Variable pm : Mint.Contracts.
Variable gauge : Gauge.Contracts.
Variable position : Monitor.Result.
Variable newRange : Monitor.NewRange.

Ltac world_fields :=
  cbn [trace noncePromise nonceDelta assignedNonces pendingRebalance fst snd].

Lemma keeps_answer {A} (o : Outcome A) : keepsDescriptor (answer o).
Proof. intros w. reflexivity. Qed.

Lemma holds_of_keeps {A} (m : M A) :
  keepsDescriptor m -> holdsDescriptor position newRange m.
Proof. intros H w Hw. unfold ownsDescriptor in *. rewrite (H w). exact Hw. Qed.

Lemma holds_bind {A B} (m : M A) (k : A -> M B) :
  holdsDescriptor position newRange m ->
  (forall a, holdsDescriptor position newRange (k a)) ->
  holdsDescriptor position newRange (bind m k).
Proof.
  intros Hm Hk w Hw. unfold bind. specialize (Hm w Hw).
  destruct (m w) as [[a|e] w1]; cbn [snd] in *; [apply Hk; exact Hm | exact Hm].
Qed.

Lemma holds_tryCatch {A} (m : M A) (h : JsError -> M A) :
  holdsDescriptor position newRange m ->
  (forall e, holdsDescriptor position newRange (h e)) ->
  holdsDescriptor position newRange (tryCatch m h).
Proof.
  intros Hm Hh w Hw. unfold tryCatch. specialize (Hm w Hw).
  destruct (m w) as [[a|e] w1]; cbn [snd] in *; [exact Hm | apply Hh; exact Hm].
Qed.

Lemma holds_writeStage (s : Stage) : holdsDescriptor position newRange (writeStage s).
Proof.
  intros w (d & Hd & Hid & Hlo & Hhi). unfold writeStage. rewrite Hd. cbn [snd].
  eexists. cbn [pendingRebalance]. split; [reflexivity|].
  cbn [d_tokenId d_tickLower d_tickUpper]. repeat split; assumption.
Qed.

Lemma keeps_unstake : keepsDescriptor (Gauge.unstakeFromGauge env gauge).
Proof. unfold Gauge.unstakeFromGauge. open_ops. keeps_go. Qed.

Lemma keeps_stake (gaugeAddress : address) :
  keepsDescriptor (Gauge.stakeToGauge env gauge gaugeAddress).
Proof.
  unfold Gauge.stakeToGauge. open_ops.
  apply keeps_bind; [apply keeps_answer|intros approved].
  keeps_go.
Qed.

Lemma keeps_createPosition (tickLower tickUpper amount0 amount1 : Z) :
  keepsDescriptor (Mint.createPosition cfg env pm tickLower tickUpper amount0 amount1).
Proof.
  unfold Mint.createPosition. open_ops.
  repeat first [ apply keeps_answer | progress keeps_go ].
Qed.

Hypothesis swapTokens_keeps :
  forall zeroForOne amount, keepsDescriptor (swapTokens zeroForOne amount).

Lemma keeps_swapAndReread (zeroForOne : bool) (amount : Z) (fromSymbol toSymbol : string) :
  keepsDescriptor (swapAndReread swapTokens chain zeroForOne amount fromSymbol toSymbol).
Proof.
  unfold swapAndReread. open_ops.
  apply keeps_bind; [apply swapTokens_keeps|intros [receipt|]].
  - repeat first [ apply keeps_answer | progress keeps_go ].
  - apply keeps_throw.
Qed.

Lemma keeps_balanceTokens (b : Balances) (ratio : Ratio.RatioResult) :
  keepsDescriptor (balanceTokens swapTokens chain b ratio).
Proof.
  unfold balanceTokens.
  destruct (Ratio.inRange ratio); cbn [negb].
  - apply keeps_bind; [apply keeps_answer|intros tick].
    apply keeps_bind; [apply keeps_answer|intros [[[|] amount]|]];
      first [apply keeps_swapAndReread | apply keeps_ret].
  - destruct (Ratio.belowRange ratio).
    + destruct (amount1 b >? 0); [apply keeps_swapAndReread | apply keeps_ret].
    + destruct (amount0 b >? 0); [apply keeps_swapAndReread | apply keeps_ret].
Qed.

Lemma clears_bind {A B} (m : M A) (k : A -> M B) :
  holdsDescriptor position newRange m ->
  (forall a, clearsOnSuccess position newRange (k a)) ->
  clearsOnSuccess position newRange (bind m k).
Proof.
  intros Hm Hk w Hw. unfold bind. specialize (Hm w Hw).
  destruct (m w) as [[a|e] w1]; cbn [fst snd] in *; [apply Hk; exact Hm | exact Hm].
Qed.

Lemma clears_throw {A} (e : JsError) : clearsOnSuccess position newRange (@throw A e).
Proof. intros w Hw. exact Hw. Qed.

Lemma clears_clear {A} (a : A) :
  clearsOnSuccess position newRange (bind clearDescriptor (fun _ => ret a)).
Proof. intros w Hw. reflexivity. Qed.

(** X26.  The descriptor of a rebalance is cleared exactly when the
    rebalance succeeds.  If [rebalance] returns, [pendingRebalance] is
    [null]; if it throws, at whatever stage, the descriptor it stored is
    still there, with the position's token id and the new range. *)
Theorem rebalance_descriptor (w : World) :
  match fst (rebalance cfg env swapTokens chain pm gauge position newRange w) with
  | Ok _ =>
      pendingRebalance
        (snd (rebalance cfg env swapTokens chain pm gauge position newRange w)) = None
  | Throw _ =>
      ownsDescriptor position newRange
        (snd (rebalance cfg env swapTokens chain pm gauge position newRange w))
  end.
Proof.
  unfold rebalance. cbv zeta.
  match goal with
  | |- context [bind (storeDescriptor ?d) ?k] =>
      change (bind (storeDescriptor d) k w) with (k tt (snd (storeDescriptor d w)));
      assert (Hrest : clearsOnSuccess position newRange (k tt));
      [|apply Hrest; eexists; split; [reflexivity|]; repeat split; reflexivity]
  end.
  cbv beta.
  apply clears_bind.
  { destruct (Monitor.r_isStaked position && Orchestrator.hasGauge position).
    - apply holds_bind; [apply holds_writeStage|intros _].
      apply holds_of_keeps. apply keeps_tryCatch; [|intros e; apply keeps_ret].
      apply keeps_bind; [apply keeps_unstake | intros _; unfold delay; keeps_go].
    - apply holds_of_keeps. apply keeps_ret. }
  intros _. apply clears_bind; [apply holds_writeStage|intros _].
  apply clears_bind; [apply holds_of_keeps; open_ops; keeps_go|intros tx].
  apply clears_bind; [apply holds_of_keeps; apply keeps_await|intros receipt].
  apply clears_bind; [apply holds_of_keeps; unfold delay; keeps_go|intros _].
  apply clears_bind; [apply holds_writeStage|intros _].
  apply clears_bind; [apply holds_of_keeps; apply keeps_answer|intros b].
  apply clears_bind; [apply holds_writeStage|intros _].
  apply clears_bind; [apply holds_of_keeps; apply keeps_answer|intros pool].
  apply clears_bind; [apply holds_writeStage|intros _].
  apply clears_bind; [apply holds_of_keeps; apply keeps_balanceTokens|intros toAdd].
  apply clears_bind; [apply holds_writeStage|intros _].
  apply clears_bind; [apply holds_of_keeps; apply keeps_createPosition|intros [id|]].
  2:{ apply clears_throw. }
  destruct (id =? 0); [apply clears_throw|].
  apply clears_bind; [apply holds_of_keeps; unfold delay; keeps_go|intros _].
  apply clears_bind; [|intros _; apply clears_clear].
  destruct (Monitor.r_gaugeAddress position) as [gaugeAddress|].
  - apply holds_bind; [apply holds_writeStage|intros _].
    apply holds_of_keeps. apply keeps_tryCatch; [|intros e; apply keeps_ret].
    apply keeps_bind; [apply keeps_stake | intros _; apply keeps_ret].
  - apply holds_of_keeps. apply keeps_ret.
Qed.



Hypothesis swaps_fail :
  forall zeroForOne amount w receipt,
    fst (swapTokens zeroForOne amount w) <> Ok (Some receipt).



End RebalanceFacts.

(** ** Finding the wallet's positions *)

Section PositionsFacts.
Import Positions.
Variable chain : Chain.
Variable gauges : list address.

Lemma collect_In {A} (body : nat -> option A) (n : nat) (a : A) :
  In a (collect body n) <-> exists i, (i < n)%nat /\ body i = Some a.
Proof.
  unfold collect. rewrite in_flat_map. split.
  - intros (i & Hi & Ha). apply in_seq in Hi. exists i. split; [lia|].
    destruct (body i) as [b|]; [|contradiction Ha].
    destruct Ha as [E|[]]. rewrite E. reflexivity.
  - intros (i & Hi & Hb). exists i. split; [apply in_seq; lia|].
    rewrite Hb. left. reflexivity.
Qed.

Lemma walletPosition_spec (info : GaugeInfo) (i : nat) (p : Monitor.Position) :
  walletPosition chain gauges info i = Some p ->
  Monitor.liquidity p > 0 /\ Monitor.isStaked p = false /\
  Monitor.gaugeAddress p = firstGauge gauges.
Proof.
  unfold walletPosition.
  destruct (tokenOfOwnerByIndex chain i) as [tokenId|e]; [|discriminate].
  destruct (positions chain tokenId) as [pos|e]; [|discriminate].
  destruct (raw_liquidity pos >? 0) eqn:Hliq; [|discriminate].
  intros E. injection E as E. subst p. cbn. rewrite Z.gtb_ltb in Hliq.
  apply Z.ltb_lt in Hliq. repeat split; [lia].
Qed.

Lemma stakedPosition_spec (gaugeAddress pool : address) (i : nat) (p : Monitor.Position) :
  stakedPosition chain gaugeAddress pool i = Some p ->
  Monitor.liquidity p > 0 /\ Monitor.isStaked p = true /\
  Monitor.gaugeAddress p = Some gaugeAddress /\ Monitor.poolAddress p = Some pool.
Proof.
  unfold stakedPosition.
  destruct (stakedByIndex chain gaugeAddress i) as [tokenId|e]; [|discriminate].
  destruct (positions chain tokenId) as [pos|e]; [|discriminate].
  destruct (raw_liquidity pos >? 0) eqn:Hliq; [|discriminate].
  intros E. injection E as E. subst p. cbn. rewrite Z.gtb_ltb in Hliq.
  apply Z.ltb_lt in Hliq. repeat split; [lia].
Qed.

Lemma getUserPositions_liquid (p : Monitor.Position) :
  In p (getUserPositions chain gauges) -> Monitor.liquidity p > 0.
Proof.
  unfold getUserPositions. intros Hin. apply in_app_or in Hin.
  destruct Hin as [Hin|Hin].
  - unfold walletPositions in Hin.
    destruct (balanceOf chain) as [n|e]; [|contradiction Hin].
    apply collect_In in Hin. destruct Hin as (i & _ & Hp).
    apply walletPosition_spec in Hp. exact (proj1 Hp).
  - apply in_flat_map in Hin. destruct Hin as (gaugeAddress & _ & Hin).
    unfold stakedPositions in Hin.
    destruct (truthy gaugeAddress); cbn [negb] in Hin; [|contradiction Hin].
    apply collect_In in Hin. destruct Hin as (i & _ & Hp).
    apply stakedPosition_spec in Hp. exact (proj1 Hp).
Qed.

(** X28.  What [getUserPositions] returns: only positions that hold
    liquidity; a staked one carries the configured, non-empty gauge it was
    found in and that gauge's pool (the zero address if the pool could not
    be read); an unstaked one carries the first configured gauge, or none. *)
Theorem getUserPositions_spec (p : Monitor.Position) :
  In p (getUserPositions chain gauges) ->
  Monitor.liquidity p > 0 /\
  if Monitor.isStaked p
  then exists gaugeAddress,
         In gaugeAddress gauges /\ gaugeAddress <> EmptyString /\
         Monitor.gaugeAddress p = Some gaugeAddress /\
         Monitor.poolAddress p
         = Some (orElse (gaugePool chain gaugeAddress) PoolLocator.ZeroAddress)
  else Monitor.gaugeAddress p = firstGauge gauges.
Proof.
  unfold getUserPositions. intros Hin. apply in_app_or in Hin.
  destruct Hin as [Hin|Hin].
  - unfold walletPositions in Hin.
    destruct (balanceOf chain) as [n|e]; [|contradiction Hin].
    apply collect_In in Hin. destruct Hin as (i & _ & Hp).
    apply walletPosition_spec in Hp. destruct Hp as (Hliq & Hstaked & Hgauge).
    rewrite Hstaked. split; assumption.
  - apply in_flat_map in Hin. destruct Hin as (gaugeAddress & Hg & Hin).
    unfold stakedPositions in Hin.
    destruct (truthy gaugeAddress) eqn:Htruthy; cbn [negb] in Hin; [|contradiction Hin].
    apply collect_In in Hin. destruct Hin as (i & _ & Hp).
    apply stakedPosition_spec in Hp. destruct Hp as (Hliq & Hstaked & Hgauge & Hpool).
    rewrite Hstaked. split; [exact Hliq|].
    exists gaugeAddress. split; [exact Hg|]. split; [|split; assumption].
    intros E. subst gaugeAddress. discriminate Htruthy.
Qed.

(** X29.  A read that throws costs only the position it belongs to.  A
    token of the wallet whose id and position can be read and that holds
    liquidity is returned, unstaked, with its ticks, whatever happens to
    the reads of the other tokens and of the gauges. *)
Theorem getUserPositions_isolates_errors (n i : nat) (tokenId : string) (pos : RawPosition) :
  balanceOf chain = Ok n ->
  (i < n)%nat ->
  tokenOfOwnerByIndex chain i = Ok tokenId ->
  positions chain tokenId = Ok pos ->
  raw_liquidity pos > 0 ->
  exists p,
    In p (getUserPositions chain gauges) /\
    Monitor.tokenId p = tokenId /\ Monitor.isStaked p = false /\
    Monitor.tickLower p = raw_tickLower pos /\
    Monitor.tickUpper p = raw_tickUpper pos /\
    Monitor.liquidity p = raw_liquidity pos.
Proof.
  intros Hn Hi Hid Hpos Hliq.
  assert (Hgt : (raw_liquidity pos >? 0) = true)
    by (rewrite Z.gtb_ltb; apply Z.ltb_lt; lia).
  eexists. split.
  - unfold getUserPositions. apply in_or_app. left.
    unfold walletPositions. rewrite Hn. apply collect_In. exists i.
    split; [exact Hi|]. unfold walletPosition. rewrite Hid, Hpos, Hgt. reflexivity.
  - cbn. repeat split; reflexivity.
Qed.

(** X30.  The monitor only ever reports positions that hold liquidity:
    every result of [checkAllPositions] over the positions found by
    [getUserPositions] has a positive liquidity, so a rebalance never
    starts on an empty position. *)
Theorem checkAllPositions_liquid (monitorChain : Monitor.Chain) (r : Monitor.Result) :
  In r (Monitor.checkAllPositions monitorChain (getUserPositions chain gauges)) ->
  Monitor.st_liquidity (Monitor.status r) > 0.
Proof.
  intros Hin. apply checkAllPositions_In in Hin. destruct Hin as (p & Hp & Hr).
  apply getUserPositions_liquid in Hp. rename Hp into Hliq.
  apply checkPosition_status in Hr. destruct Hr as (_ & _ & _ & Hstatus).
  rewrite Hstatus. cbn [Monitor.checkPositionStatus Monitor.st_liquidity]. exact Hliq.
Qed.

End PositionsFacts.

(** ** The further properties on concrete inputs *)



Lemma ranges_for_wide_spacing_witness :
  Monitor.newTickLower (Cycle.walletRange Scenario.cfg0 (-196320) 100)
  = Monitor.newTickUpper (Cycle.walletRange Scenario.cfg0 (-196320) 100) /\
  Monitor.newTickUpper (Monitor.calculateNewRange (-196320) 100 (26 # 10))
  - Monitor.newTickLower (Monitor.calculateNewRange (-196320) 100 (26 # 10)) <= 100.
Proof.
  destruct (ranges_for_wide_spacing Scenario.cfg0 (-196320) 100 (26 # 10) eq_refl)
    as (_ & _ & Hwidth & _ & Hwallet).
  split; [exact Hwallet | exact Hwidth].
Defined.




Lemma sendTransaction_fees_valid_witness :
  Web3.sendTransaction Scenario.cfg0 (Signer.strictWallet Scenario.envOk) Scenario.world0
  = Web3.sendTransaction Scenario.cfg0 Scenario.envOk Scenario.world0.
Proof.
  exact (proj1 (sendTransaction_fees_valid Scenario.cfg0 Scenario.envOk
                  Scenario.world0 eq_refl)).
Defined.

Lemma approveToken_only_when_short_witness :
  assignedNonces (snd (Web3.approveToken Scenario.envOk 5 Scenario.world0)) = [11] /\
  assignedNonces (snd (Web3.approveToken Scenario.envNonce 5 Scenario.world0)) = [].
Proof.
  split.
  - destruct (approveToken_only_when_short Scenario.envOk 5 Scenario.world0) as [_ Hshort].
    destruct (Hshort "TKN" 0 eq_refl eq_refl eq_refl) as [Hnonce _]. exact Hnonce.
  - destruct (approveToken_only_when_short Scenario.envNonce 5 Scenario.world0)
      as [Hcovered _].
    refine (proj1 (proj2 (Hcovered _))).
    intros n a H. injection H as H. subst a. vm_compute. discriminate.
Defined.

Lemma kyber_router_rejected_witness :
  exists e,
    Kyber.runSwapAttempt Scenario.cfg0 Scenario.envOk Fixtures.apiMismatch 5 Scenario.world0
    = (Throw e,
       {| trace := [KyberBuild; KyberRoute]; noncePromise := None; nonceDelta := 0;
          assignedNonces := [];
          pendingRebalance := Some Scenario.swappingDescriptor |}).
Proof.
  apply (kyber_router_rejected Scenario.cfg0 Scenario.envOk Fixtures.apiMismatch 5
           Scenario.world0
           {| Kyber.route_amountOut := 1000; Kyber.route_routerAddress := "0xRouter" |}
           {| Kyber.routerAddress := "0xOther"; Kyber.txData := "0x00";
              Kyber.txValue := 0; Kyber.amountOut := 1000 |}).
  - reflexivity.
  - reflexivity.
  - left. vm_compute. discriminate.
Defined.

Lemma direct_swap_no_approvals_witness :
  atMost TokenApprove 0
    (Direct.swapTokens Scenario.cfg0 Scenario.envNonce Scenario.ctrOk 5) /\
  atMost Permit2Approve 0
    (Direct.swapTokens Scenario.cfg0 Scenario.envNonce Scenario.ctrOk 5).
Proof.
  apply (direct_swap_no_approvals Scenario.cfg0 Scenario.envNonce Scenario.ctrOk 5).
  - intros n a H. injection H as H. subst a. vm_compute. discriminate.
  - intros n a H. injection H as H. subst a. vm_compute. discriminate.
Defined.



Lemma stakeToGauge_approval_witness :
  assignedNonces (snd (Gauge.stakeToGauge Scenario.envOk (Fixtures.gaugeWith "0xGAUGE")
                         "0xgauge" Scenario.world0)) = [11] /\
  assignedNonces (snd (Gauge.stakeToGauge Scenario.envOk (Fixtures.gaugeWith "0xOld")
                         "0xgauge" Scenario.world0)) = [12; 11] /\
  calls WalletSend
    (trace (snd (Gauge.stakeToGauge Scenario.envOk Fixtures.gaugeApproveFails
                   "0xgauge" Scenario.world0))) = 0%nat.
Proof.
  split; [|split].
  - destruct (stakeToGauge_approval Scenario.envOk (Fixtures.gaugeWith "0xGAUGE")
                "0xgauge" "0xGAUGE" Scenario.world0 eq_refl) as [Hsame _].
    exact (proj1 (Hsame eq_refl)).
  - destruct (stakeToGauge_approval Scenario.envOk (Fixtures.gaugeWith "0xOld")
                "0xgauge" "0xOld" Scenario.world0 eq_refl) as [_ Hdiff].
    refine (proj1 (Hdiff _) "0xapprove" eq_refl eq_refl).
    vm_compute. discriminate.
  - destruct (stakeToGauge_approval Scenario.envOk Fixtures.gaugeApproveFails
                "0xgauge" "0x0000000000000000000000000000000000000000"
                Scenario.world0 eq_refl) as [_ Hdiff].
    refine (proj1 (proj2 (proj2 (Hdiff _) _ eq_refl))).
    vm_compute. discriminate.
Defined.


Lemma rebalance_descriptor_witness :
  match fst (Rebalance.rebalance Scenario.cfg0 Scenario.envOk
               (fun _ amount => Kyber.swapTokens Scenario.cfg0 Scenario.envOk Scenario.apiDown amount)
               Fixtures.chainBalanced Fixtures.pmReverts (Fixtures.gaugeWith "0xG")
               Fixtures.result1 Fixtures.range1 Scenario.world0) with
  | Ok _ =>
      pendingRebalance
        (snd (Rebalance.rebalance Scenario.cfg0 Scenario.envOk
                (fun _ amount => Kyber.swapTokens Scenario.cfg0 Scenario.envOk Scenario.apiDown amount)
                Fixtures.chainBalanced Fixtures.pmReverts (Fixtures.gaugeWith "0xG")
                Fixtures.result1 Fixtures.range1 Scenario.world0)) = None
  | Throw _ =>
      Rebalance.ownsDescriptor Fixtures.result1 Fixtures.range1
        (snd (Rebalance.rebalance Scenario.cfg0 Scenario.envOk
                (fun _ amount => Kyber.swapTokens Scenario.cfg0 Scenario.envOk Scenario.apiDown amount)
                Fixtures.chainBalanced Fixtures.pmReverts (Fixtures.gaugeWith "0xG")
                Fixtures.result1 Fixtures.range1 Scenario.world0))
  end.
Proof.
  apply (rebalance_descriptor Scenario.cfg0 Scenario.envOk
           (fun _ amount => Kyber.swapTokens Scenario.cfg0 Scenario.envOk Scenario.apiDown amount)
           Fixtures.chainBalanced Fixtures.pmReverts (Fixtures.gaugeWith "0xG")
           Fixtures.result1 Fixtures.range1).
  intros zeroForOne amount. apply kyber_swapTokens_keeps.
Defined.


Lemma getUserPositions_spec_witness :
  exists p,
    In p (Positions.getUserPositions Fixtures.walletChain ["0xG"]) /\
    Monitor.tokenId p = "2" /\ Monitor.liquidity p > 0 /\
    Monitor.poolAddress p = Some "0xP".
Proof.
  eexists. split; [right; left; reflexivity|]. split; [reflexivity|].
  destruct (getUserPositions_spec Fixtures.walletChain ["0xG"]
              {| Monitor.tokenId := "2"; Monitor.token0 := "0xA"; Monitor.token1 := "0xB";
                 Monitor.tickLower := -196560; Monitor.tickUpper := -196440;
                 Monitor.liquidity := 10 ^ 18; Monitor.isStaked := true;
                 Monitor.gaugeAddress := Some "0xG"; Monitor.poolAddress := Some "0xP" |})
    as [Hliq _].
  - right. left. reflexivity.
  - split; [exact Hliq | reflexivity].
Defined.

Lemma getUserPositions_isolates_errors_witness :
  exists p,
    In p (Positions.getUserPositions Fixtures.walletChain ["0xG"]) /\
    Monitor.tokenId p = "1" /\ Monitor.isStaked p = false.
Proof.
  destruct (getUserPositions_isolates_errors Fixtures.walletChain ["0xG"] 3 0 "1"
              {| Positions.raw_token0 := "0xA"; Positions.raw_token1 := "0xB";
                 Positions.raw_tickSpacing := 1;
                 Positions.raw_tickLower := -196560; Positions.raw_tickUpper := -196440;
                 Positions.raw_liquidity := 10 ^ 18 |})
    as (p & Hin & Hid & Hstaked & _); try reflexivity; [lia|].
  exists p. repeat split; assumption.
Defined.

Lemma checkAllPositions_liquid_witness :
  exists r,
    In r (Monitor.checkAllPositions Scenario.chain0
            (Positions.getUserPositions Fixtures.walletChain ["0xG"])) /\
    Monitor.r_tokenId r = "1" /\
    Monitor.st_liquidity (Monitor.status r) > 0.
Proof.
  eexists. split; [left; reflexivity|]. split; [reflexivity|].
  apply (checkAllPositions_liquid Fixtures.walletChain ["0xG"] Scenario.chain0).
  left. reflexivity.
Defined.
